(** * structuredhttp: the js/wasm request executor (request_run_wasm.go)

    A shallow embedding of the synchronous/asynchronous bridge of
    [request_run_wasm.go]: [promiseHack], [createSignal],
    [createReadableStream], [goHeaders], [blobReader.Read], [fetch2http] and
    [Request.Run], together with the parts of [syscall/js], [strings],
    [net/http] and [net/textproto] they call.

    Go code runs in the monad [M]: a computation returns, panics, or stays
    blocked in the polling loop, and records the calls it made into the host
    (the JavaScript runtime) in order. *)

From Stdlib Require Import ZArith Ascii String List Lia.
From stdpp Require Import base option list gmap strings.

Set Warnings "-register-all".
Set Default Proof Using "Type".

Local Open Scope string_scope.
Local Open Scope list_scope.

(* ================================================================== *)
(** * Go values *)

Abbreviation byte := Byte.byte.

(** A [[]byte] literal. *)
Definition bytes (s : string) : list byte := list_byte_of_string s.

(** [error]: [io.EOF] and the values made by [errors.New]. *)
Inductive error :=
| io_EOF
| errors_New (text : string).

(** [err.Error()] *)
Definition Error_ (e : error) : string :=
  match e with
  | io_EOF => "EOF"
  | errors_New text => text
  end.

(** [time.Duration]: a count of nanoseconds. *)
Definition Duration := Z.

(** [func (d Duration) Milliseconds() int64] *)
Definition Milliseconds (d : Duration) : Z := Z.quot d 1000000.

(** The builtin [copy(dst, src)]: the number of bytes copied and [dst]
    afterwards. *)
Definition copy (dst src : list byte) : nat * list byte :=
  let n := Nat.min (length dst) (length src) in
  (n, take n src ++ drop n dst).

(** [make([]byte, n)] *)
Definition make (n : nat) : list byte := replicate n Byte.x00.

(* ------------------------------------------------------------------ *)
(** ** io.Reader

    The implementations of [io.Reader] a Request is given here:
    [strings.Reader] (what [strings.NewReader] returns) and a reader that
    reports [io.EOF] in the same call that hands out its last bytes, which
    the contract of [io.Reader] allows ("it may return the (non-nil) error
    from the same call"), as [testing/iotest.DataErrReader] and the body
    readers of [net/http] do. The nil interface value is [None] in
    [option Reader]. *)

Inductive Reader :=
| strings_Reader (s : list byte) (i : nat)
| dataErrReader (unread : list byte).

Definition strings_NewReader (s : string) : Reader := strings_Reader (bytes s) 0.

(** [r.Read(b)]: [(n, err)], the buffer afterwards and the reader
    afterwards. *)
Definition Reader_Read (r : Reader) (b : list byte)
  : (nat * option error) * list byte * Reader :=
  match r with
  | strings_Reader s i =>
      if (length s <=? i)%nat then ((0%nat, Some io_EOF), b, r)
      else
        let '(n, b') := copy b (drop i s) in
        ((n, None), b', strings_Reader s (i + n))
  | dataErrReader unread =>
      let '(n, b') := copy b unread in
      let rest := drop n unread in
      ((n, if (length rest =? 0)%nat then Some io_EOF else None), b',
       dataErrReader rest)
  end.

(* ================================================================== *)
(** * The host: JavaScript values *)

(** What happens while [promiseHack] waits: the poller's 2ms sleep ends
    ([Wake]), or the host runs the next queued promise reaction
    ([HostTurn]). *)
Inductive Turn := Wake | HostTurn.

Inductive Settlement (V : Type) :=
| Pending
| Resolved (v : V)
| Rejected (args : list V).
Arguments Pending {V}.
Arguments Resolved {V} v.
Arguments Rejected {V} args.

(** [js.Value]. A [Promise] carries how it settles and the order of host
    turns and poller wake-ups while it is waited for; a [StreamReader]
    carries the promises its successive [read()] calls return. *)
Inductive Value : Type :=
| Undefined
| Null
| Bool (b : bool)
| Number (n : Z)
| String_ (s : string)
| Object (props : gmap string Value)
| Uint8Array (data : list byte)
| AbortSignal (ms : Z)
| ReadableStream (source : option Reader)
| Promise (st : Settlement Value) (timeline : list Turn)
| Headers_ (entries : list (string * string))
| Blob (size : Z) (reads : list Value)
| Stream (reads : list Value)
| StreamReader (reads : list Value)
| Response_ (status : Z) (statusText : string)
            (headers : list (string * string)) (blob : Value).

(** The calls Go makes into the host, as they appear in the source. *)
Inductive HostCall :=
| NewObject
| NewAbortController
| SetTimeout (ms : Z)
| NewReadableStream (source : option Reader)
| Enqueue (u : Value)
| Close
| GlobalString (v : Value)
| GlobalFetch (URL : string) (obj : Value)
| CallBlob
| CallStream
| CallGetReader
| CallRead
| CallForEach.

(** What the host does that the Go code cannot see: the promise [fetch]
    returns, the global [String] conversion, and how many times it pulls an
    outgoing body stream. *)
Record Host := {
  host_fetch : string -> Value -> Value;
  host_String : Value -> string;
  host_pulls : nat
}.

(* ================================================================== *)
(** * The monad of Go computations *)

Inductive Outcome (A : Type) :=
| Ret (a : A)
| Panic (msg : string)
| Blocked.
Arguments Ret {A} a.
Arguments Panic {A} msg.
Arguments Blocked {A}.

Definition M (A : Type) : Type := Outcome A * list HostCall.

Definition ret {A} (a : A) : M A := (Ret a, []).
Definition panic {A} (msg : string) : M A := (Panic msg, []).
Definition blocked {A} : M A := (Blocked, []).
Definition call (c : HostCall) : M unit := (Ret tt, [c]).

Definition bind {A B} (m : M A) (k : A -> M B) : M B :=
  match fst m with
  | Ret a => (fst (k a), snd m ++ snd (k a))
  | Panic msg => (Panic msg, snd m)
  | Blocked => (Blocked, snd m)
  end.

Notation "x <- m ;; k" := (bind m (fun x => k))
  (at level 10, m at level 99, k at level 200, only parsing).
Notation "'let*' p := m 'in' k" := (bind m (fun x => let 'p := x in k))
  (at level 10, p pattern, m at level 99, k at level 200, only parsing).

Definition outcome {A} (m : M A) : Outcome A := fst m.
Definition trace {A} (m : M A) : list HostCall := snd m.

(* ================================================================== *)
(** * syscall/js *)

Definition isObject (v : Value) : bool :=
  match v with
  | Undefined | Null | Bool _ | Number _ | String_ _ => false
  | _ => true
  end.

(** [v.Get(p)]: panics unless [v] is a JavaScript object. *)
Definition Get (v : Value) (p : string) : M Value :=
  match v with
  | Object props => ret (default Undefined (props !! p))
  | Response_ status statusText headers blob =>
      if String.eqb p "status" then ret (Number status)
      else if String.eqb p "statusText" then ret (String_ statusText)
      else if String.eqb p "headers" then ret (Headers_ headers)
      else ret Undefined
  | Blob size reads =>
      if String.eqb p "size" then ret (Number size) else ret Undefined
  | _ =>
      if isObject v then ret Undefined
      else panic "syscall/js: call of Value.Get on a value that is not an object"
  end.

Definition IsUndefined (v : Value) : bool :=
  match v with Undefined => true | _ => false end.

(* ================================================================== *)
(** * net/textproto and net/http: header keys *)

Definition isLower (c : ascii) : bool :=
  (97 <=? N_of_ascii c)%N && (N_of_ascii c <=? 122)%N.

Definition isUpper (c : ascii) : bool :=
  (65 <=? N_of_ascii c)%N && (N_of_ascii c <=? 90)%N.

Definition isDigit (c : ascii) : bool :=
  (48 <=? N_of_ascii c)%N && (N_of_ascii c <=? 57)%N.

(** ['a' - 'A'] *)
Definition toLower : N := 32.

(** [validHeaderFieldByte]: the token characters of RFC 7230. *)
Definition validHeaderFieldByte (c : ascii) : bool :=
  isLower c || isUpper c || isDigit c
  || existsb (Ascii.eqb c) (list_ascii_of_string "!#$%&'*+-.^_`|~").

(** One step of the canonicalising loop: upper case at the start and after
    a dash, lower case elsewhere. *)
Definition canon_byte (upper : bool) (c : ascii) : ascii :=
  if upper && isLower c then ascii_of_N (N_of_ascii c - toLower)
  else if negb upper && isUpper c then ascii_of_N (N_of_ascii c + toLower)
  else c.

Fixpoint canon_loop (upper : bool) (a : string) : string :=
  match a with
  | EmptyString => EmptyString
  | String c a' =>
      let c' := canon_byte upper c in
      String c' (canon_loop (Ascii.eqb c' "-") a')
  end.

(** [canonicalMIMEHeaderKey]: a key with a byte that is not a token
    character is returned unchanged. (The table of common headers it
    consults last maps each key to itself.) *)
Definition canonicalMIMEHeaderKey (a : string) : string :=
  if forallb validHeaderFieldByte (list_ascii_of_string a)
  then canon_loop true a
  else a.

(** The quick check of [CanonicalMIMEHeaderKey]: [true] when the loop
    leaves for [canonicalMIMEHeaderKey], [false] when it returns [s]. *)
Fixpoint quick_check (upper : bool) (s : string) : bool :=
  match s with
  | EmptyString => false
  | String c s' =>
      if negb (validHeaderFieldByte c) then false
      else if upper && isLower c then true
      else if negb upper && isUpper c then true
      else quick_check (Ascii.eqb c "-") s'
  end.

Definition CanonicalMIMEHeaderKey (s : string) : string :=
  if quick_check true s then canonicalMIMEHeaderKey s else s.

(** [http.Header] is [map[string][]string]. *)
Abbreviation http_Header := (gmap string (list string)).

(** [h.Set(key, value)] *)
Definition Header_Set (h : http_Header) (key value : string) : http_Header :=
  <[CanonicalMIMEHeaderKey key := [value]]> h.

(** [h.Get(key)] *)
Definition Header_Get (h : http_Header) (key : string) : string :=
  match h !! CanonicalMIMEHeaderKey key with
  | Some (v :: _) => v
  | _ => EmptyString
  end.

(** Names that differ only in letter case. *)
Definition fold_byte (c : ascii) : ascii :=
  if isUpper c then ascii_of_N (N_of_ascii c + toLower) else c.

Fixpoint fold_case (s : string) : string :=
  match s with
  | EmptyString => EmptyString
  | String c s' => String (fold_byte c) (fold_case s')
  end.

Definition same_name (a b : string) : Prop := fold_case a = fold_case b.

(** A header name the host can deliver: a token. *)
Definition token (s : string) : bool :=
  forallb validHeaderFieldByte (list_ascii_of_string s).

(* ================================================================== *)
(** * The executor *)

Section WithHost.
Context (host : Host) (DefaultTimeout : Duration).

(** [v.String()]: the string itself for a JavaScript string, a
    description of the form [<T>] or [<T: V>] otherwise. *)
Definition Value_String (v : Value) : string :=
  match v with
  | String_ s => s
  | Undefined => "<undefined>"
  | Null => "<null>"
  | Bool _ => "<boolean: " ++ host_String host v ++ ">"
  | Number _ => "<number: " ++ host_String host v ++ ">"
  | _ => "<object>"
  end.

(** [v.Int()] *)
Definition Value_Int (v : Value) : M Z :=
  match v with
  | Number n => ret n
  | _ => panic "syscall/js: call of Value.Int on a value that is not a number"
  end.

(** [v.Bool()] *)
Definition Value_Bool (v : Value) : M bool :=
  match v with
  | Bool b => ret b
  | _ => panic "syscall/js: call of Value.Bool on a value that is not a boolean"
  end.

(** [js.Global().Call("String", v)] *)
Definition Global_String (v : Value) : M Value :=
  _ <- call (GlobalString v) ;;
  ret (String_ (host_String host v)).

(** [js.Global().Get("Uint8Array").New(n)] *)
Definition Uint8Array_New (n : nat) : Value := Uint8Array (make n).

(** [js.CopyBytesToJS(dst, src)] *)
Definition CopyBytesToJS (dst : Value) (src : list byte) : M (nat * Value) :=
  match dst with
  | Uint8Array d => let '(n, d') := copy d src in ret (n, Uint8Array d')
  | _ => panic "syscall/js: CopyBytesToJS: expected dst to be a Uint8Array"
  end.

(** [js.CopyBytesToGo(dst, src)] *)
Definition CopyBytesToGo (dst : list byte) (src : Value) : M (nat * list byte) :=
  match src with
  | Uint8Array s => ret (copy dst s)
  | _ => panic "syscall/js: CopyBytesToGo: expected src to be a Uint8Array"
  end.

(* ================================================================== *)
(** * promiseHack *)

(** The variables [done], [res] and [err] the two callbacks share with the
    polling loop. *)
Record Cell := { done : bool; res : Value; err : option error }.

Definition Cell0 : Cell := {| done := false; res := Undefined; err := None |}.

(** The callback given to [catch]: what it leaves in the cell; it returns
    [nil]. *)
Definition catch_func (args : list Value) (c : Cell) : M Cell :=
  match args with
  | [] =>
      ret {| done := true; res := res c; err := Some (errors_New EmptyString) |}
  | a0 :: _ =>
      msgAttr <- Get a0 "message" ;;
      msg <- (if IsUndefined msgAttr
              then (s <- Global_String a0 ;; ret (Value_String s))
              else ret (Value_String msgAttr)) ;;
      ret {| done := true; res := res c; err := Some (errors_New msg) |}
  end.

(** The callback given to [then]: [res = args[0]]. *)
Definition then_func (args : list Value) (c : Cell) : M Cell :=
  match args with
  | [] => panic "runtime error: index out of range [0] with length 0"
  | a0 :: _ => ret {| done := true; res := a0; err := err c |}
  end.

(** Reactions queued by [CalledPromise.catch(..).then(..)]. *)
Inductive Reaction :=
| OnCatch (args : list Value)
| OnThen (args : list Value).

(** A [js.Func] that returns Go's [nil] returns [null] to the host. *)
Definition nil_result : Value := Null.

(** The promise [catch] returns passes a resolution value on to [then];
    after a rejection it resolves with what the catch callback returned. *)
Definition reactions (st : Settlement Value) : list Reaction :=
  match st with
  | Pending => []
  | Resolved v => [OnThen [v]]
  | Rejected args => [OnCatch args]
  end.

(** [for { time.Sleep(2ms); if done { return res, err } }], with the host
    running its reactions in between. *)
Fixpoint poll (timeline : list Turn) (queue : list Reaction) (c : Cell)
  : M (Value * option error) :=
  match timeline with
  | [] => blocked
  | Wake :: tl =>
      if done c then ret (res c, err c) else poll tl queue c
  | HostTurn :: tl =>
      match queue with
      | [] => poll tl [] c
      | OnCatch args :: q =>
          c' <- catch_func args c ;;
          poll tl (q ++ [OnThen [nil_result]]) c'
      | OnThen args :: q =>
          c' <- then_func args c ;;
          poll tl q c'
      end
  end.

Definition promiseHack (CalledPromise : Value) : M (Value * option error) :=
  match CalledPromise with
  | Promise st timeline => poll timeline (reactions st) Cell0
  | _ =>
      if isObject CalledPromise
      then panic "JavaScript error: CalledPromise.catch is not a function"
      else panic "syscall/js: call of Value.Call on a value that is not an object"
  end.


(* ================================================================== *)
(** * createSignal, strmap2obj *)

Definition createSignal (ms : Z) : M Value :=
  _ <- call NewAbortController ;;
  _ <- call (SetTimeout ms) ;;
  ret (AbortSignal ms).

(** [obj.Set(k, v)] for every entry of the map makes [k] an own property
    of the object, except for the key [__proto__]: on an object made by
    [Object()] setting it to a string goes to the setter inherited from
    [Object.prototype], which ignores a value that is not an object, so no
    property is created. *)
Definition strmap2obj (m : gmap string string) : M Value :=
  _ <- call NewObject ;;
  ret (Object (String_ <$> delete "__proto__" m)).

(* ================================================================== *)
(** * createReadableStream *)

(** What the function [f] returns: [js.Undefined()], or [f] itself, which
    then reads on from where the reader stands. *)
Inductive FuncResult :=
| ReturnsUndefined
| ReturnsF (r : option Reader).

(** The function [f] that [start] hands to the host: one pull. *)
Definition f (r : option Reader) : M FuncResult :=
  let b := make 100 in
  match r with
  | None =>
      panic "runtime error: invalid memory address or nil pointer dereference"
  | Some rd =>
      let '((n, err), b, rd') := Reader_Read rd b in
      match err with
      | Some _ =>
          _ <- call Close ;;
          ret ReturnsUndefined
      | None =>
          let u := Uint8Array_New n in
          let* (_, u) := CopyBytesToJS u b in
          _ <- call (Enqueue u) ;;
          ret (ReturnsF (Some rd'))
      end
  end.

Definition createReadableStream (r : option Reader) : M Value :=
  _ <- call NewObject ;;
  _ <- call (NewReadableStream r) ;;
  ret (ReadableStream r).

(** The host pulling a stream: it calls [f], then the function that call
    returned, until it gets [undefined] or has pulled [pulls] times. *)
Fixpoint host_pull (pulls : nat) (r : option Reader) : M unit :=
  match pulls with
  | O => ret tt
  | S k =>
      x <- f r ;;
      match x with
      | ReturnsUndefined => ret tt
      | ReturnsF r' => host_pull k r'
      end
  end.

(** The bytes the host was handed, in order. *)
Definition enqueued (t : list HostCall) : list byte :=
  concat (omap (fun c => match c with
                         | Enqueue (Uint8Array d) => Some d
                         | _ => None
                         end) t).

Definition closed (t : list HostCall) : bool :=
  existsb (fun c => match c with Close => true | _ => false end) t.

(* ================================================================== *)
(** * fetch *)

(** A value of [map[string]interface{}]. *)
Inductive GoAny :=
| GoString (s : string)
| GoValue (v : Value).

(** [js.ValueOf] *)
Definition ValueOf (x : GoAny) : Value :=
  match x with
  | GoString s => String_ s
  | GoValue v => v
  end.

(** The host consuming the [body] of the object given to [fetch], when it
    is a stream. *)
Definition pull_body (obj : Value) : M unit :=
  match obj with
  | Object props =>
      match props !! "body" with
      | Some (ReadableStream r) => host_pull (host_pulls host) r
      | _ => ret tt
      end
  | _ => ret tt
  end.

(** The host's side of [js.Global().Call("fetch", URL, obj)]: it pulls the
    body stream, if it was given one, and returns its promise. *)
Definition Global_fetch (URL : string) (obj : Value) : M Value :=
  _ <- call (GlobalFetch URL obj) ;;
  _ <- pull_body obj ;;
  ret (host_fetch host URL obj).

Definition fetch (URL : string) (Args : gmap string GoAny)
  : M (Value * option error) :=
  _ <- call NewObject ;;
  let obj := Object (ValueOf <$> Args) in
  p <- Global_fetch URL obj ;;
  promiseHack p.

(* ================================================================== *)
(** * goHeaders *)

(** The callback given to [forEach]: [args[0]] is the value, [args[1]] the
    name. *)
Definition forEach_func (h : http_Header) (args : list Value) : M http_Header :=
  match args with
  | value :: name :: _ =>
      ret (Header_Set h (Value_String name) (Value_String value))
  | _ => panic "runtime error: index out of range"
  end.

(** The host's [Headers.forEach]: one call per entry, in its order. *)
Fixpoint forEach (entries : list (string * string)) (parent : Value)
    (h : http_Header) : M http_Header :=
  match entries with
  | [] => ret h
  | (name, value) :: es =>
      h' <- forEach_func h [String_ value; String_ name; parent] ;;
      forEach es parent h'
  end.

Definition goHeaders (fetch : Value) : M http_Header :=
  hs <- Get fetch "headers" ;;
  match hs with
  | Headers_ entries =>
      _ <- call CallForEach ;;
      forEach entries hs ∅
  | _ =>
      if isObject hs
      then panic "JavaScript error: forEach is not a function"
      else panic "syscall/js: call of Value.Call on a value that is not an object"
  end.

(* ================================================================== *)
(** * blobReader *)

Record blobReader := { streamReader : Value }.

(** What [read()] resolves to. *)
Definition read_result (d : bool) (value : Value) : Value :=
  Object (<["done" := Bool d]> (<["value" := value]> ∅)).

(** [streamReader.Call("read")]: the next promise of the stream and the
    reader afterwards; a stream that has delivered everything keeps
    answering [{done: true}]. *)
Definition Call_read (rd : Value) : M (Value * Value) :=
  match rd with
  | StreamReader reads =>
      _ <- call CallRead ;;
      match reads with
      | [] => ret (Promise (Resolved (read_result true Undefined)) [HostTurn; Wake],
                   StreamReader [])
      | p :: rest => ret (p, StreamReader rest)
      end
  | _ => panic "JavaScript error: read is not a function"
  end.

(** [func (b *blobReader) Read(p []byte) (n int, err error)]: [(n, err)],
    [p] afterwards and the reader afterwards. *)
Definition blobReader_Read (b : blobReader) (p : list byte)
  : M ((nat * option error) * list byte * blobReader) :=
  let* (promise, rd') := Call_read (streamReader b) in
  let b' := {| streamReader := rd' |} in
  let* (result, err) := promiseHack promise in
  match err with
  | Some e => ret ((0%nat, Some e), p, b')
  | None =>
      d <- Get result "done" ;;
      done <- Value_Bool d ;;
      if done then ret ((0%nat, None), p, b')
      else
        v <- Get result "value" ;;
        let* (n, p') := CopyBytesToGo p v in
        ret ((n, None), p', b')
  end.

(** [io.ReadCloser]: what [ioutil.NopCloser] wraps in [fetch2http]. *)
Inductive ReadCloser :=
| NopCloser_Reader (r : Reader)
| NopCloser_blobReader (b : blobReader).

Definition ReadCloser_Read (body : ReadCloser) (p : list byte)
  : M ((nat * option error) * list byte * ReadCloser) :=
  match body with
  | NopCloser_Reader r =>
      let '(ne, p', r') := Reader_Read r p in
      ret (ne, p', NopCloser_Reader r')
  | NopCloser_blobReader b =>
      let* (ne, p', b') := blobReader_Read b p in
      ret (ne, p', NopCloser_blobReader b')
  end.

(* ================================================================== *)
(** * fetch2http *)

Record http_Response := {
  Status : string;
  StatusCode : Z;
  Header : http_Header;
  Body : ReadCloser;
  ContentLength : Z
}.

Definition Call_blob (fetch : Value) : M Value :=
  match fetch with
  | Response_ _ _ _ blob => _ <- call CallBlob ;; ret blob
  | _ => panic "JavaScript error: blob is not a function"
  end.

Definition Call_stream (blob : Value) : M Value :=
  match blob with
  | Blob _ reads => _ <- call CallStream ;; ret (Stream reads)
  | _ => panic "JavaScript error: stream is not a function"
  end.

Definition Call_getReader (stream : Value) : M Value :=
  match stream with
  | Stream reads => _ <- call CallGetReader ;; ret (StreamReader reads)
  | _ => panic "JavaScript error: getReader is not a function"
  end.

Definition fetch2http (fetch : Value) : M http_Response :=
  p <- Call_blob fetch ;;
  let* (blob, err) := promiseHack p in
  match err with
  | Some e => panic (Error_ e)
  | None =>
      sz <- Get blob "size" ;;
      Size <- Value_Int sz ;;
      Reader <- (if (Size =? 0)%Z
                 then ret (NopCloser_Reader (strings_NewReader EmptyString))
                 else
                   s <- Call_stream blob ;;
                   rd <- Call_getReader s ;;
                   ret (NopCloser_blobReader {| streamReader := rd |})) ;;
      st <- Get fetch "statusText" ;;
      code <- Get fetch "status" ;;
      code <- Value_Int code ;;
      h <- goHeaders fetch ;;
      ret {| Status := Value_String st;
             StatusCode := code;
             Header := h;
             Body := Reader;
             ContentLength := Size |}
  end.

(* ================================================================== *)
(** * Request.Run *)

(** Modelled from the spec: the declaration of the [Request] type, which
    lies outside request_run_wasm.go. These are the fields [Run] reads, with
    the types its uses of them fix: method, target URL, headers (string to
    string), optional body source, optional per-call timeout, stored
    construction error. [Error] and [CurrentTimeout] are pointers,
    [CurrentReader] an interface: [None] is nil. The process-wide
    [DefaultTimeout], declared outside the file too, is a parameter. *)
Record Request := {
  Method : string;
  URL : string;
  Headers : gmap string string;
  CurrentReader : option Reader;
  CurrentTimeout : option Duration;
  Error : option error
}.

(** Modelled from the spec: the declaration of the [Response] type, of
    which [Run] sets the one field [RawResponse]. *)
Record Response := { RawResponse : http_Response }.

Definition Run (r : Request) : M (option Response * option error) :=
  match Error r with
  | Some e => ret (None, Some e)
  | None =>
      Signal <-
        (if bool_decide (CurrentTimeout r = None) && negb (DefaultTimeout =? 0)%Z
         then createSignal (Milliseconds DefaultTimeout)
         else
           match CurrentTimeout r with
           | Some t =>
               if negb (t =? 0)%Z then createSignal (Milliseconds t)
               else ret Undefined
           | None => ret Undefined
           end) ;;
      let Reader := CurrentReader r in
      let Reader :=
        match Reader with
        | None => Some (strings_NewReader EmptyString)
        | Some _ => Reader
        end in
      headers <- strmap2obj (Headers r) ;;
      body <- createReadableStream (CurrentReader r) ;;
      let FetchArgs : gmap string GoAny :=
        <["body" := GoValue body]>
          (<["headers" := GoValue headers]>
             (<["method" := GoString (Method r)]>
                (<["signal" := GoValue Signal]> ∅))) in
      let FetchArgs :=
        if String.eqb (Method r) "GET" || String.eqb (Method r) "HEAD"
        then delete "body" FetchArgs
        else FetchArgs in
      let* (res, err) := fetch (URL r) FetchArgs in
      match err with
      | Some e => ret (None, Some e)
      | None =>
          resp <- fetch2http res ;;
          ret (Some {| RawResponse := resp |}, None)
      end
  end.

End WithHost.

(* ================================================================== *)
(** * Vocabulary of the statements *)

Definition is_wake (t : Turn) : bool :=
  match t with Wake => true | HostTurn => false end.

(** A timeline on which a wait for a settled promise ends: the host gets to
    run a reaction, and the poller wakes up some time after it. *)
Fixpoint fair (tl : list Turn) : bool :=
  match tl with
  | [] => false
  | Wake :: tl' => fair tl'
  | HostTurn :: tl' => existsb is_wake tl'
  end.

(** Calls that create or arm a cancellation signal. *)
Definition is_timer (c : HostCall) : bool :=
  match c with
  | NewAbortController | SetTimeout _ => true
  | _ => false
  end.

(** Calls the function [f] of an outgoing stream makes when it is pulled. *)
Definition is_pull (c : HostCall) : bool :=
  match c with
  | Enqueue _ | Close => true
  | _ => false
  end.

(** Calls made while waiting for a promise and while reading a response. *)
Definition is_wait (c : HostCall) : bool :=
  match c with
  | GlobalString _
  | CallBlob | CallStream | CallGetReader | CallRead | CallForEach => true
  | _ => false
  end.

(** The effective timeout of [Run]: the calls that arm the signal, and the
    signal given to [fetch]. *)
Definition signal_calls (D : Duration) (r : Request) : list HostCall :=
  match CurrentTimeout r with
  | None =>
      if (D =? 0)%Z then []
      else [NewAbortController; SetTimeout (Milliseconds D)]
  | Some t =>
      if (t =? 0)%Z then []
      else [NewAbortController; SetTimeout (Milliseconds t)]
  end.

Definition Signal_of (D : Duration) (r : Request) : Value :=
  match CurrentTimeout r with
  | None => if (D =? 0)%Z then Undefined else AbortSignal (Milliseconds D)
  | Some t => if (t =? 0)%Z then Undefined else AbortSignal (Milliseconds t)
  end.

(** The object [Run] hands to [fetch]. *)
Definition FetchArgs_of (D : Duration) (r : Request) : gmap string GoAny :=
  let all : gmap string GoAny :=
    <["body" := GoValue (ReadableStream (CurrentReader r))]>
      (<["headers" := GoValue (Object (String_ <$> delete "__proto__" (Headers r)))]>
         (<["method" := GoString (Method r)]>
            (<["signal" := GoValue (Signal_of D r)]> ∅))) in
  if String.eqb (Method r) "GET" || String.eqb (Method r) "HEAD"
  then delete "body" all
  else all.

Definition fetch_obj (D : Duration) (r : Request) : Value :=
  Object (ValueOf <$> FetchArgs_of D r).

(** What [Run] does with what [fetch] returned. *)
Definition respond (host : Host) (x : Value * option error)
  : M (option Response * option error) :=
  let '(res, err) := x in
  match err with
  | Some e => ret (None, Some e)
  | None =>
      resp <- fetch2http host res ;;
      ret (Some {| RawResponse := resp |}, None)
  end.

(** [emit_all cs m]: the calls [cs], then [m]. *)
Definition emit_all {A} (cs : list HostCall) (m : M A) : M A :=
  (fst m, cs ++ snd m).

(** [emit c m]: the call [c], then [m]. *)
Definition emit {A} (c : HostCall) (m : M A) : M A := (fst m, c :: snd m).

(** Every call a computation makes satisfies [P]. *)
Definition emits {A} (P : HostCall -> bool) (m : M A) : Prop :=
  Forall (fun c => P c = true) (trace m).

(** The entry of the object given to [fetch] under key [k]. *)
Definition fetch_arg (obj : Value) (k : string) : option Value :=
  match obj with
  | Object props => props !! k
  | _ => None
  end.

(** The headers mapping [forEach] builds, without the calls. *)
Definition header_of_entries (entries : list (string * string)) : http_Header :=
  foldl (fun h e => Header_Set h (fst e) (snd e)) ∅ entries.

(** A consumer of a response body: one [Read] per buffer size, each into a
    fresh buffer; what every [Read] delivered ([p[:n]]) and its error. *)
Fixpoint read_all (host : Host) (b : blobReader) (sizes : list nat)
  : M (list (list byte * option error)) :=
  match sizes with
  | [] => ret []
  | n :: rest =>
      let* (ne, p, b') := blobReader_Read host b (make n) in
      out <- read_all host b' rest ;;
      ret ((take (fst ne) p, snd ne) :: out)
  end.

(** A host stream that delivers the given chunks and then is done. *)
Definition chunk_read (data : string) (tl : list Turn) : Value :=
  Promise (Resolved (read_result false (Uint8Array (bytes data)))) tl.

Definition done_read (tl : list Turn) : Value :=
  Promise (Resolved (read_result true Undefined)) tl.

Definition mock_stream (tl : list Turn) : blobReader :=
  {| streamReader :=
       StreamReader [chunk_read "ab" tl; chunk_read "cde" tl; done_read tl] |}.

(** A host for the examples: [fetch] resolves to a 200 response with an
    empty body. *)
Definition example_host : Host :=
  {| host_fetch := fun _ _ =>
       Promise (Resolved (Response_ 200 "OK" [("content-type", "text/plain")]
                  (Promise (Resolved (Blob 0 [])) [HostTurn; Wake])))
               [Wake; HostTurn; Wake];
     host_String := fun _ => "[object Object]";
     host_pulls := 4 |}.

Definition example_request (method : string) (body : option Reader)
    (timeout : option Duration) : Request :=
  {| Method := method; URL := "http://example.test/"; Headers := ∅;
     CurrentReader := body; CurrentTimeout := timeout; Error := None |}.

(** A Request whose construction failed. *)
Definition failed_request : Request :=
  {| Method := "POST"; URL := "http://[bad/"; Headers := ∅;
     CurrentReader := Some (strings_NewReader "hi");
     CurrentTimeout := Some 5000000000%Z;
     Error := Some (errors_New "invalid URL") |}.

(** The rejection of a failed [fetch]: an error object with a message. *)
Definition fetch_failure : Value :=
  Object {[ "message" := String_ "Failed to fetch" ]}.

(** Response headers with one name in two spellings. *)
Definition example_headers : list (string * string) :=
  [("content-type", "text/html"); ("Content-Type", "text/plain")].

(** Run never constructs a body stream for GET and HEAD, and never sends
    one: the reading of the first testable property that is compared with
    the code below. *)
Definition no_body_stream_constructed_or_sent : Prop :=
  forall (host : Host) (D : Duration) (r : Request),
    Method r = "GET" \/ Method r = "HEAD" ->
    (forall src, ~ In (NewReadableStream src) (trace (Run host D r))) /\
    (forall url obj, In (GlobalFetch url obj) (trace (Run host D r)) ->
                     fetch_arg obj "body" = None).


(** The call of the global [String] conversion. *)
Definition is_coerce (c : HostCall) : bool :=
  match c with
  | GlobalString _ => true
  | _ => false
  end.

(** The call of [fetch]. *)
Definition is_fetch (c : HostCall) : bool :=
  match c with
  | GlobalFetch _ _ => true
  | _ => false
  end.

(** The calls that hand the host the given chunks. *)
Definition enqueue_calls (chunks : list (list byte)) : list HostCall :=
  map (fun d => Enqueue (Uint8Array d)) chunks.

(** A host stream that delivers the given chunks, one per [read()]. *)
Definition stream_of (chunks : list string) (tl : list Turn) : blobReader :=
  {| streamReader := StreamReader (map (fun c => chunk_read c tl) chunks) |}.

(** The Response [fetch2http] builds from a settled host response. *)
Definition http_Response_of (status : Z) (statusText : string)
    (headers : list (string * string)) (size : Z) (reads : list Value)
  : http_Response :=
  {| Status := statusText;
     StatusCode := status;
     Header := header_of_entries headers;
     Body := if (size =? 0)%Z
             then NopCloser_Reader (strings_NewReader EmptyString)
             else NopCloser_blobReader {| streamReader := StreamReader reads |};
     ContentLength := size |}.

(** A host whose [fetch] returns the given promise. *)
Definition host_with (p : Value) : Host :=
  {| host_fetch := fun _ _ => p;
     host_String := fun _ => "[object Object]";
     host_pulls := 4 |}.

(** A Request with headers. *)
Definition json_request : Request :=
  {| Method := "get"; URL := "http://example.test/items";
     Headers := {[ "X-Trace-Id" := "abc" ]};
     CurrentReader := Some (strings_NewReader "{}");
     CurrentTimeout := Some 500000%Z; Error := None |}.

(* ================================================================== *)
(** * The monad *)

Lemma bind_ret {A B} (a : A) (k : A -> M B) : bind (ret a) k = k a.
Proof. unfold bind, ret; simpl. now destruct (k a). Qed.

Lemma bind_call {A} (c : HostCall) (k : unit -> M A) :
  bind (call c) k = emit c (k tt).
Proof. reflexivity. Qed.

Lemma bind_panic {A B} (msg : string) (k : A -> M B) :
  bind (panic msg) k = panic msg.
Proof. reflexivity. Qed.

Lemma bind_emit {A B} (c : HostCall) (m : M A) (k : A -> M B) :
  bind (emit c m) k = emit c (bind m k).
Proof. unfold bind, emit; simpl. now destruct (fst m). Qed.

Lemma bind_assoc {A B C} (m : M A) (k : A -> M B) (h : B -> M C) :
  bind (bind m k) h = bind m (fun a => bind (k a) h).
Proof.
  unfold bind. destruct m as [[a | msg |] t]; simpl; try reflexivity.
  destruct (k a) as [[b | msg |] t']; simpl; try reflexivity.
  now rewrite app_assoc.
Qed.

Lemma trace_emit {A} (c : HostCall) (m : M A) : trace (emit c m) = c :: trace m.
Proof. reflexivity. Qed.

Lemma outcome_emit {A} (c : HostCall) (m : M A) : outcome (emit c m) = outcome m.
Proof. reflexivity. Qed.

Lemma trace_bind {A B} (m : M A) (k : A -> M B) :
  trace (bind m k)
  = trace m ++ match outcome m with Ret a => trace (k a) | _ => [] end.
Proof.
  unfold bind, trace, outcome.
  destruct (fst m); simpl; now rewrite ?app_nil_r.
Qed.

Lemma outcome_bind {A B} (m : M A) (k : A -> M B) :
  outcome (bind m k)
  = match outcome m with
    | Ret a => outcome (k a)
    | Panic msg => Panic msg
    | Blocked => Blocked
    end.
Proof. unfold bind, outcome. now destruct (fst m). Qed.

Lemma emits_ret {A} P (a : A) : emits P (ret a).
Proof. constructor. Qed.

Lemma emits_panic {A} P msg : emits P (@panic A msg).
Proof. constructor. Qed.

Lemma emits_blocked {A} P : emits P (@blocked A).
Proof. constructor. Qed.

Lemma emits_call P c : P c = true -> emits P (call c).
Proof. intros H. repeat constructor. exact H. Qed.

Lemma emits_bind {A B} P (m : M A) (k : A -> M B) :
  emits P m -> (forall a, emits P (k a)) -> emits P (bind m k).
Proof.
  intros Hm Hk. unfold emits. rewrite trace_bind.
  apply Forall_app. split; [exact Hm |].
  destruct (outcome m); [apply Hk | constructor | constructor].
Qed.

(** Unfolds the calls at the head of a computation into [emit]s. *)
Ltac go_step :=
  repeat (rewrite ?bind_assoc, ?bind_call, ?bind_ret, ?bind_panic, ?bind_emit;
          cbv beta).

(** Splits a goal [emits P m] along the binds and matches of [m]. *)
Ltac emits_tac :=
  repeat first
    [ apply emits_ret | apply emits_panic | apply emits_blocked
    | apply emits_call; reflexivity
    | apply emits_bind; [| intros ?]
    | match goal with
      | |- emits _ (match ?x with _ => _ end) => destruct x
      | |- emits _ (let '(_, _) := ?x in _) => destruct x
      end ].

(* ================================================================== *)
(** * promiseHack *)

Section PromiseHack.
Context (host : Host).

Lemma Get_emits P v p : emits P (Get v p).
Proof.
  destruct v; simpl; emits_tac;
    repeat match goal with |- emits _ (if ?b then _ else _) => destruct b end;
    emits_tac.
Qed.

Lemma catch_func_emits args c : emits is_wait (catch_func host args c).
Proof.
  unfold catch_func. destruct args as [| a0 args]; [emits_tac |].
  apply emits_bind; [apply Get_emits | intros m].
  destruct (IsUndefined m); unfold Global_String; emits_tac.
Qed.

Lemma then_func_emits args c : emits is_wait (then_func args c).
Proof. unfold then_func. emits_tac. Qed.

Lemma poll_emits tl : forall q c, emits is_wait (poll host tl q c).
Proof.
  induction tl as [| [|] tl IH]; intros q c; simpl.
  - emits_tac.
  - destruct (done c); [emits_tac | apply IH].
  - destruct q as [| [args | args] q]; [apply IH | |];
      (apply emits_bind; [| intros c'; apply IH]).
    + apply catch_func_emits.
    + apply then_func_emits.
Qed.

Lemma promiseHack_emits p : emits is_wait (promiseHack host p).
Proof.
  destruct p; simpl; try emits_tac. apply poll_emits.
Qed.

(** Once [done] is set and nothing is queued, the next wake-up returns
    what the cell holds. *)
Lemma poll_done tl c :
  done c = true -> existsb is_wake tl = true ->
  poll host tl [] c = ret (res c, err c).
Proof.
  intros Hd. induction tl as [| [|] tl IH]; simpl; intros Hw.
  - discriminate.
  - now rewrite Hd.
  - now apply IH.
Qed.

Lemma poll_resolved tl v c :
  done c = false -> fair tl = true ->
  poll host tl [OnThen [v]] c = ret (v, err c).
Proof.
  intros Hd. induction tl as [| [|] tl IH]; simpl; intros Hf.
  - discriminate.
  - rewrite Hd. now apply IH.
  - rewrite bind_ret. now rewrite poll_done.
Qed.

Lemma promiseHack_resolved tl v :
  fair tl = true ->
  promiseHack host (Promise (Resolved v) tl) = ret (v, None).
Proof. intros Hf. simpl. now rewrite poll_resolved. Qed.

(** What the catch callback leaves behind when it returns. *)
Lemma catch_func_cell args c c1 :
  outcome (catch_func host args c) = Ret c1 ->
  done c1 = true /\ res c1 = res c /\ exists e, err c1 = Some e.
Proof.
  unfold catch_func. destruct args as [| a0 args].
  - intros [= <-]. simpl. eauto.
  - rewrite outcome_bind. destruct (outcome (Get a0 "message")) as [m | |];
      try discriminate.
    rewrite outcome_bind.
    destruct (IsUndefined m); simpl; intros [= <-]; simpl; eauto.
Qed.



Lemma poll_rejected_fair tl args c c1 :
  done c = false ->
  outcome (catch_func host args c) = Ret c1 ->
  fair tl = true ->
  exists r, outcome (poll host tl [OnCatch args] c) = Ret (r, err c1).
Proof.
  intros Hd Hc. destruct (catch_func_cell _ _ _ Hc) as (Hd1 & Hr1 & _).
  induction tl as [| [|] tl IH]; cbn [poll app fair]; intros Hf.
  - discriminate.
  - rewrite Hd. now apply IH.
  - rewrite outcome_bind, Hc.
    destruct tl as [| [|] tl]; cbn [poll then_func existsb is_wake] in *;
      [discriminate | |].
    + rewrite Hd1. eauto.
    + rewrite bind_ret. rewrite poll_done by (simpl; auto). simpl. eauto.
Qed.


Lemma Get_returns v p : isObject v = true -> exists m, outcome (Get v p) = Ret m.
Proof.
  destruct v; cbn [isObject Get]; try discriminate; intros _;
    repeat match goal with |- context [if ?b then _ else _] => destruct b end;
    eexists; reflexivity.
Qed.

(** The catch callback returns, with a non-nil error stored, when it is
    given no payload or an object. *)
Lemma catch_func_returns args c :
  (forall a rest, args = a :: rest -> isObject a = true) ->
  exists e, outcome (catch_func host args c)
            = Ret {| done := true; res := res c; err := Some e |}.
Proof.
  intros Hobj. destruct args as [| a rest]; [eexists; reflexivity |].
  destruct (Get_returns a "message" (Hobj a rest eq_refl)) as [m Hm].
  unfold catch_func. rewrite outcome_bind, Hm, outcome_bind.
  destruct (IsUndefined m); eexists; reflexivity.
Qed.

(** A rejection payload that is not an object (a string, say) is outside
    the cases of the catch callback: reading its [message] panics. *)
Lemma catch_func_primitive_payload s c :
  outcome (catch_func host [String_ s] c)
  = Panic "syscall/js: call of Value.Get on a value that is not an object".
Proof. reflexivity. Qed.

(** DeferredBridge where the fallback chain of the catch callback does
    work, that is on payloads whose [message] can be read (objects): on a
    timeline on which the wait ends, a resolved
    deferred value gives the value handed to the callback and a nil error;
    a rejection whose payload has a [message] gives an error described by
    that message; a rejection whose payload has no [message] (the property
    reads as undefined) gives an error described by the payload's string
    coercion; a rejection without any payload gives a non-nil error with an
    empty description. *)
Theorem promiseHack_settled (tl : list Turn) :
  fair tl = true ->
  (forall v, outcome (promiseHack host (Promise (Resolved v) tl)) = Ret (v, None))
  /\ (forall payload rest m,
        outcome (Get payload "message") = Ret m -> IsUndefined m = false ->
        exists r e,
          outcome (promiseHack host (Promise (Rejected (payload :: rest)) tl))
          = Ret (r, Some e)
          /\ Error_ e = Value_String host m)
  /\ (forall payload rest,
        outcome (Get payload "message") = Ret Undefined ->
        exists r e,
          outcome (promiseHack host (Promise (Rejected (payload :: rest)) tl))
          = Ret (r, Some e)
          /\ Error_ e = host_String host payload)
  /\ (exists r e,
        outcome (promiseHack host (Promise (Rejected []) tl)) = Ret (r, Some e)
        /\ Error_ e = EmptyString).
Proof.
  intros Hf. repeat split.
  - intros v. now rewrite promiseHack_resolved.
  - intros payload rest m Hm Hu.
    assert (Hc : outcome (catch_func host (payload :: rest) Cell0)
                 = Ret {| done := true; res := Undefined;
                          err := Some (errors_New (Value_String host m)) |}).
    { unfold catch_func. rewrite outcome_bind, Hm, Hu. reflexivity. }
    destruct (poll_rejected_fair tl (payload :: rest) Cell0 _ eq_refl Hc Hf)
      as [r Hr].
    exists r, (errors_New (Value_String host m)). split; [exact Hr | reflexivity].
  - intros payload rest Hm.
    assert (Hc : outcome (catch_func host (payload :: rest) Cell0)
                 = Ret {| done := true; res := Undefined;
                          err := Some (errors_New (host_String host payload)) |}).
    { unfold catch_func. rewrite outcome_bind, Hm. reflexivity. }
    destruct (poll_rejected_fair tl (payload :: rest) Cell0 _ eq_refl Hc Hf)
      as [r Hr].
    exists r, (errors_New (host_String host payload)).
    split; [exact Hr | reflexivity].
  - destruct (poll_rejected_fair tl [] Cell0 _ eq_refl eq_refl Hf) as [r Hr].
    exists r, (errors_New EmptyString). split; [exact Hr | reflexivity].
Qed.


End PromiseHack.

(* ================================================================== *)
(** * Request.Run *)

Section Run.
Context (host : Host) (D : Duration).

Lemma emit_all_nil {A} (m : M A) : emit_all [] m = m.
Proof. now destruct m. Qed.

Lemma trace_emit_all {A} cs (m : M A) : trace (emit_all cs m) = cs ++ trace m.
Proof. reflexivity. Qed.

Lemma outcome_emit_all {A} cs (m : M A) : outcome (emit_all cs m) = outcome m.
Proof. reflexivity. Qed.

Lemma f_emits r : emits is_pull (f r).
Proof.
  unfold f. destruct r as [rd |]; [| emits_tac].
  destruct (Reader_Read rd (make 100)) as [[[n e] b] rd'].
  destruct e; unfold CopyBytesToJS, Uint8Array_New; emits_tac.
Qed.

Lemma host_pull_emits k : forall r, emits is_pull (host_pull k r).
Proof.
  induction k as [| k IH]; intros r; simpl; [emits_tac |].
  apply emits_bind; [apply f_emits | intros [| r']]; [emits_tac | apply IH].
Qed.

Lemma pull_body_emits obj : emits is_pull (pull_body host obj).
Proof.
  unfold pull_body. destruct obj; try solve [emits_tac].
  destruct (props !! "body") as [[] |]; try solve [emits_tac].
  apply host_pull_emits.
Qed.

Lemma pull_body_none obj :
  fetch_arg obj "body" = None -> pull_body host obj = ret tt.
Proof.
  unfold pull_body, fetch_arg. destruct obj; try reflexivity.
  now intros ->.
Qed.

(** [forEach] over the entries of a host [Headers] object makes no call and
    cannot fail. *)
Lemma forEach_pure entries parent : forall h,
  forEach host entries parent h
  = ret (foldl (fun h e => Header_Set h (fst e) (snd e)) h entries).
Proof.
  induction entries as [| [name value] es IH]; intros h; cbn [forEach foldl].
  - reflexivity.
  - unfold forEach_func. rewrite bind_ret. apply IH.
Qed.

Lemma goHeaders_emits v : emits is_wait (goHeaders host v).
Proof.
  unfold goHeaders. apply emits_bind; [apply Get_emits | intros hs].
  destruct hs; try (destruct (isObject _); emits_tac).
  rewrite forEach_pure. emits_tac.
Qed.

Lemma fetch2http_emits v : emits is_wait (fetch2http host v).
Proof.
  unfold fetch2http.
  apply emits_bind; [unfold Call_blob; emits_tac | intros p].
  apply emits_bind; [apply promiseHack_emits | intros [blob e]].
  destruct e; [emits_tac |].
  apply emits_bind; [apply Get_emits | intros sz].
  apply emits_bind; [unfold Value_Int; emits_tac | intros Size].
  apply emits_bind.
  { destruct (Size =? 0)%Z; unfold Call_stream, Call_getReader; emits_tac. }
  intros Reader.
  apply emits_bind; [apply Get_emits | intros st].
  apply emits_bind; [apply Get_emits | intros code].
  apply emits_bind; [unfold Value_Int; emits_tac | intros code'].
  apply emits_bind; [apply goHeaders_emits | intros h]. emits_tac.
Qed.

Lemma respond_emits x : emits is_wait (respond host x).
Proof.
  destruct x as [v e]. unfold respond. destruct e; [emits_tac |].
  apply emits_bind; [apply fetch2http_emits | intros]. emits_tac.
Qed.

(** [Run] without a stored error: the calls that arm the signal, the
    construction of the arguments, the call of [fetch], the host pulling the
    body, the wait and the response. *)
Lemma Run_unfold r :
  Error r = None ->
  Run host D r
  = emit_all (signal_calls D r)
      (emit NewObject (emit NewObject
         (emit (NewReadableStream (CurrentReader r))
            (emit NewObject
               (emit (GlobalFetch (URL r) (fetch_obj D r))
                  (bind (pull_body host (fetch_obj D r))
                     (fun _ =>
                        bind (promiseHack host
                                (host_fetch host (URL r) (fetch_obj D r)))
                             (respond host)))))))).
Proof.
  intros He. unfold Run, fetch_obj, FetchArgs_of, Signal_of, signal_calls.
  rewrite He. unfold createSignal, strmap2obj, createReadableStream, fetch,
    Global_fetch.
  destruct (CurrentTimeout r) as [t |].
  - rewrite bool_decide_eq_false_2 by discriminate. cbn [andb].
    destruct (t =? 0)%Z; cbn [negb]; go_step;
      destruct (String.eqb (Method r) "GET" || String.eqb (Method r) "HEAD");
      reflexivity.
  - rewrite bool_decide_eq_true_2 by reflexivity. cbn [andb].
    destruct (D =? 0)%Z; cbn [negb]; go_step;
      destruct (String.eqb (Method r) "GET" || String.eqb (Method r) "HEAD");
      reflexivity.
Qed.

Lemma Run_stored_error r e : Error r = Some e -> Run host D r = ret (None, Some e).
Proof. intros He. unfold Run. now rewrite He. Qed.

(** Every call [Run] makes: arming the signal, building the arguments and
    calling [fetch], a pull of the body when a body was sent, or a call of
    the wait and of the reading of the response. *)
Lemma Run_calls r c :
  In c (trace (Run host D r)) ->
  Error r = None /\
  (In c (signal_calls D r)
   \/ In c [NewObject; NewReadableStream (CurrentReader r);
            GlobalFetch (URL r) (fetch_obj D r)]
   \/ (is_pull c = true /\ fetch_arg (fetch_obj D r) "body" <> None)
   \/ is_wait c = true).
Proof.
  destruct (Error r) as [e |] eqn:He.
  { rewrite (Run_stored_error r e He). intros []. }
  rewrite (Run_unfold r He), trace_emit_all, !trace_emit, trace_bind.
  intros Hin. split; [reflexivity |].
  apply in_app_or in Hin as [Hin | Hin]; [now left |].
  cbn [In] in Hin.
  destruct Hin as [<- | [<- | [<- | [<- | [<- | Hin]]]]];
    try (right; left; simpl; tauto).
  apply in_app_or in Hin as [Hin | Hin].
  - right; right; left. split.
    + pose proof (pull_body_emits (fetch_obj D r)) as Hp.
      unfold emits in Hp. rewrite Forall_forall in Hp. apply Hp.
      now apply list_elem_of_In.
    + intros Hb. rewrite (pull_body_none _ Hb) in Hin. destruct Hin.
  - right; right; right.
    destruct (outcome (pull_body host (fetch_obj D r))); try destruct Hin.
    assert (Hp : emits is_wait
                   (bind (promiseHack host
                            (host_fetch host (URL r) (fetch_obj D r)))
                         (respond host))).
    { apply emits_bind; [apply promiseHack_emits | apply respond_emits]. }
    unfold emits in Hp. rewrite Forall_forall in Hp. apply Hp.
    now apply list_elem_of_In.
Qed.

Lemma Run_makes_calls r :
  Error r = None ->
  In (NewReadableStream (CurrentReader r)) (trace (Run host D r)) /\
  In (GlobalFetch (URL r) (fetch_obj D r)) (trace (Run host D r)) /\
  forall c, In c (signal_calls D r) -> In c (trace (Run host D r)).
Proof.
  intros He. rewrite (Run_unfold r He), trace_emit_all, !trace_emit.
  repeat split.
  - apply in_or_app. right. simpl. tauto.
  - apply in_or_app. right. simpl. tauto.
  - intros c Hc. apply in_or_app. now left.
Qed.

Lemma fetch_obj_signal r : fetch_arg (fetch_obj D r) "signal" = Some (Signal_of D r).
Proof.
  unfold fetch_arg, fetch_obj, FetchArgs_of. rewrite lookup_fmap.
  destruct (String.eqb (Method r) "GET" || String.eqb (Method r) "HEAD").
  - rewrite lookup_delete_ne by discriminate.
    rewrite !lookup_insert_ne by discriminate. now rewrite lookup_insert_eq.
  - rewrite !lookup_insert_ne by discriminate. now rewrite lookup_insert_eq.
Qed.

Lemma fetch_obj_body_stripped r :
  Method r = "GET" \/ Method r = "HEAD" ->
  fetch_arg (fetch_obj D r) "body" = None.
Proof.
  intros Hm. unfold fetch_arg, fetch_obj, FetchArgs_of. rewrite lookup_fmap.
  assert (String.eqb (Method r) "GET" || String.eqb (Method r) "HEAD" = true)
    as ->.
  { destruct Hm as [-> | ->]; reflexivity. }
  now rewrite lookup_delete_eq.
Qed.

Lemma fetch_obj_body_kept r :
  Method r <> "GET" -> Method r <> "HEAD" ->
  fetch_arg (fetch_obj D r) "body" = Some (ReadableStream (CurrentReader r)).
Proof.
  intros Hg Hh. unfold fetch_arg, fetch_obj, FetchArgs_of. rewrite lookup_fmap.
  apply String.eqb_neq in Hg, Hh. rewrite Hg, Hh. cbn [orb].
  now rewrite lookup_insert_eq.
Qed.

End Run.

Section RunClaims.
Context (host : Host) (D : Duration).

(** C8. A Request that carries a stored construction error: Run returns
    that error with a nil Response, and has made no call into the host at
    all: no cancellation handle, no body stream, no fetch. *)
Theorem Run_returns_stored_error (r : Request) (e : error) :
  Error r = Some e ->
  outcome (Run host D r) = Ret (None, Some e) /\ trace (Run host D r) = [].
Proof. intros He. now rewrite (Run_stored_error host D r e He). Qed.

(** C3. A Request with an explicit timeout of zero: Run makes no call that
    creates or arms a cancellation signal and gives [fetch] an undefined
    signal, whatever the process-wide default is. With any explicit timeout
    the only timer armed is the Request's own, so the default is applied
    only when the Request carries none, and then it is applied. *)
Theorem Run_timeout (r : Request) :
  (CurrentTimeout r = Some 0%Z ->
     Forall (fun c => is_timer c = false) (trace (Run host D r)) /\
     (forall url obj, In (GlobalFetch url obj) (trace (Run host D r)) ->
                      fetch_arg obj "signal" = Some Undefined) /\
     (Error r = None ->
      exists obj, In (GlobalFetch (URL r) obj) (trace (Run host D r))))
  /\ (forall t ms, CurrentTimeout r = Some t ->
        In (SetTimeout ms) (trace (Run host D r)) ->
        t <> 0%Z /\ ms = Milliseconds t)
  /\ (CurrentTimeout r = None -> Error r = None -> D <> 0%Z ->
        In (SetTimeout (Milliseconds D)) (trace (Run host D r))).
Proof.
  split; [| split].
  - intros Ht. split; [| split].
    + apply Forall_forall. intros c Hc. apply list_elem_of_In in Hc.
      apply Run_calls in Hc as [_ Hc]. unfold signal_calls in Hc.
      rewrite Ht in Hc. cbn in Hc.
      destruct Hc as [[] | [[<- | [<- | [<- | []]]] | [[Hc _] | Hc]]];
        try reflexivity; destruct c; simpl in *; congruence.
    + intros url obj Hc. apply Run_calls in Hc as [_ Hc].
      unfold signal_calls in Hc. rewrite Ht in Hc. cbn in Hc.
      destruct Hc as [[] | [[Hc | [Hc | [Hc | []]]] | [[Hc _] | Hc]]];
        try discriminate.
      injection Hc as <- <-. rewrite fetch_obj_signal. unfold Signal_of.
      now rewrite Ht.
    + intros He. exists (fetch_obj D r).
      now destruct (Run_makes_calls host D r He) as (_ & H2 & _).
  - intros t ms Ht Hc. apply Run_calls in Hc as [_ Hc].
    unfold signal_calls in Hc. rewrite Ht in Hc.
    destruct Hc as [Hc | [[Hc | [Hc | [Hc | []]]] | [[Hc _] | Hc]]];
      try discriminate.
    destruct (Z.eqb_spec t 0) as [-> | Hne]; [destruct Hc |].
    destruct Hc as [Hc | [Hc | []]]; [discriminate |].
    injection Hc as <-. now split.
  - intros Ht He HD. destruct (Run_makes_calls host D r He) as (_ & _ & H3).
    apply H3. unfold signal_calls. rewrite Ht.
    destruct (Z.eqb_spec D 0) as [-> | _]; [congruence |]. simpl. tauto.
Qed.

(** C1, as the code has it. For GET and HEAD the body stream is built (the
    stream over the Request's reader is among the arguments first) but the
    [body] entry is deleted before the call: the object given to [fetch]
    has no body, so no stream is sent, and the host is never handed a chunk
    or a close of it, whether or not the Request carries a reader. *)
Theorem Run_GET_HEAD_sends_no_body (r : Request) :
  Method r = "GET" \/ Method r = "HEAD" ->
  (forall url obj, In (GlobalFetch url obj) (trace (Run host D r)) ->
                   fetch_arg obj "body" = None)
  /\ Forall (fun c => is_pull c = false) (trace (Run host D r))
  /\ (Error r = None ->
      In (NewReadableStream (CurrentReader r)) (trace (Run host D r)) /\
      exists obj, In (GlobalFetch (URL r) obj) (trace (Run host D r))).
Proof.
  intros Hm. pose proof (fetch_obj_body_stripped D r Hm) as Hb.
  split; [| split].
  - intros url obj Hc. apply Run_calls in Hc as [_ Hc].
    destruct Hc as [Hc | [[Hc | [Hc | [Hc | []]]] | [[Hc _] | Hc]]];
      try discriminate.
    + unfold signal_calls in Hc.
      destruct (CurrentTimeout r) as [t |];
        [destruct (t =? 0)%Z | destruct (D =? 0)%Z]; simpl in Hc;
        intuition discriminate.
    + now injection Hc as <- <-.
  - apply Forall_forall. intros c Hc. apply list_elem_of_In in Hc.
    apply Run_calls in Hc as [_ Hc].
    destruct Hc as [Hc | [[<- | [<- | [<- | []]]] | [[_ Hc] | Hc]]];
      try reflexivity.
    + unfold signal_calls in Hc.
      destruct (CurrentTimeout r) as [t |];
        [destruct (t =? 0)%Z | destruct (D =? 0)%Z]; simpl in Hc;
        intuition (subst; reflexivity).
    + now destruct Hc.
    + destruct c; simpl in *; congruence.
  - intros He. destruct (Run_makes_calls host D r He) as (H1 & H2 & _).
    split; [exact H1 |]. now exists (fetch_obj D r).
Qed.

(** C7, at the failing input. A Request that is neither GET nor HEAD and
    has no body reader: the stream given to [fetch] as [body] is built over
    the nil reader, not over the empty reader Run prepared; the first pull
    of it panics, and so does Run when the host pulls the body; over the
    empty reader the pull would have closed the stream at once. *)
Theorem Run_nil_reader (r : Request) :
  Error r = None -> CurrentReader r = None ->
  Method r <> "GET" -> Method r <> "HEAD" ->
  In (GlobalFetch (URL r) (fetch_obj D r)) (trace (Run host D r))
  /\ fetch_arg (fetch_obj D r) "body" = Some (ReadableStream None)
  /\ outcome (f None)
     = Panic "runtime error: invalid memory address or nil pointer dereference"
  /\ (host_pulls host <> 0 ->
      outcome (Run host D r)
      = Panic "runtime error: invalid memory address or nil pointer dereference")
  /\ f (Some (strings_NewReader EmptyString)) = emit Close (ret ReturnsUndefined).
Proof.
  intros He Hr Hg Hh.
  pose proof (fetch_obj_body_kept D r Hg Hh) as Hb. rewrite Hr in Hb.
  split; [now destruct (Run_makes_calls host D r He) as (_ & H2 & _) |].
  split; [exact Hb |]. split; [reflexivity |]. split; [| reflexivity].
  intros Hp.
  rewrite (Run_unfold host D r He), outcome_emit_all, !outcome_emit, outcome_bind.
  unfold pull_body. unfold fetch_arg in Hb.
  destruct (fetch_obj D r); try discriminate. rewrite Hb.
  destruct (host_pulls host) as [| k]; [congruence |]. reflexivity.
Qed.

End RunClaims.

(* ================================================================== *)
(** * fetch2http and blobReader *)

Section Responses.
Context (host : Host).

(** C5. A host response whose blob has size zero (and whose blob promise
    resolves while it is waited for): fetch2http returns a Response whose
    body is the reader over the empty string, whose every Read, the first
    one included, reports io.EOF with no byte; the only calls into the host
    are [blob] and the header enumeration, so neither [stream] nor
    [getReader] is called and no host stream reader exists. *)
Theorem fetch2http_empty_body (status : Z) (statusText : string)
    (headers : list (string * string)) (reads : list Value) (tl : list Turn) :
  fair tl = true ->
  let fetch :=
    Response_ status statusText headers (Promise (Resolved (Blob 0 reads)) tl) in
  exists resp,
    outcome (fetch2http host fetch) = Ret resp
    /\ ContentLength resp = 0%Z
    /\ Body resp = NopCloser_Reader (strings_NewReader EmptyString)
    /\ (forall p, ReadCloser_Read host (Body resp) p
                  = ret ((0%nat, Some io_EOF), p, Body resp))
    /\ trace (fetch2http host fetch) = [CallBlob; CallForEach]
    /\ ~ In CallStream (trace (fetch2http host fetch))
    /\ ~ In CallGetReader (trace (fetch2http host fetch)).
Proof.
  intros Hf fetch.
  assert (Hrun : fetch2http host fetch
                 = emit CallBlob (emit CallForEach (ret
                     {| Status := statusText; StatusCode := status;
                        Header := header_of_entries headers;
                        Body := NopCloser_Reader (strings_NewReader EmptyString);
                        ContentLength := 0 |}))).
  { unfold fetch2http, fetch. cbn [Call_blob]. go_step.
    rewrite (promiseHack_resolved host tl _ Hf). go_step.
    cbn [Get String.eqb Ascii.eqb Bool.eqb Value_Int]. go_step.
    cbn [Z.eqb]. go_step. unfold goHeaders.
    cbn [Get String.eqb Ascii.eqb Bool.eqb Value_Int Value_String]. go_step.
    rewrite forEach_pure. go_step. reflexivity. }
  rewrite Hrun. eexists. split; [reflexivity |]. cbn.
  repeat split; try reflexivity; intros H; intuition discriminate.
Qed.

(** A Read of a chunk copies as much of it as the buffer holds and moves
    on to the next chunk. *)
Lemma blobReader_Read_chunk data tl rest p :
  fair tl = true ->
  blobReader_Read host {| streamReader := StreamReader (chunk_read data tl :: rest) |} p
  = emit CallRead
      (ret ((fst (copy p (bytes data)), None), snd (copy p (bytes data)),
            {| streamReader := StreamReader rest |})).
Proof.
  intros Hf. unfold blobReader_Read, chunk_read. cbn [streamReader Call_read].
  go_step. rewrite (promiseHack_resolved host tl _ Hf). go_step.
  reflexivity.
Qed.

(** A Read at the end of the stream returns [0, nil]. *)
Lemma blobReader_Read_done tl rest p :
  fair tl = true ->
  blobReader_Read host {| streamReader := StreamReader (done_read tl :: rest) |} p
  = emit CallRead (ret ((0%nat, None), p, {| streamReader := StreamReader rest |})).
Proof.
  intros Hf. unfold blobReader_Read, done_read. cbn [streamReader Call_read].
  go_step. rewrite (promiseHack_resolved host tl _ Hf). go_step.
  reflexivity.
Qed.

Lemma blobReader_Read_exhausted p :
  blobReader_Read host {| streamReader := StreamReader [] |} p
  = emit CallRead (ret ((0%nat, None), p, {| streamReader := StreamReader [] |})).
Proof. reflexivity. Qed.

(** C2, at the failing inputs. The host stream delivers "ab", "cde", then
    done. Read into buffers of one byte, the reader returns "a", then "c",
    then [0, nil]: the bytes "b", "d" and "e" are lost. Read into buffers of
    eight bytes, it returns "ab", then "cde", and from then on [0, nil]: a
    nil error, not io.EOF, so the end of the data is never signalled. *)
Theorem blobReader_Read_mock_stream (tl : list Turn) :
  fair tl = true ->
  outcome (read_all host (mock_stream tl) [1; 1; 1])
  = Ret [(bytes "a", None); (bytes "c", None); ([], None)]
  /\ outcome (read_all host (mock_stream tl) [8; 8; 8; 8])
     = Ret [(bytes "ab", None); (bytes "cde", None); ([], None); ([], None)].
Proof.
  intros Hf. unfold mock_stream. split; cbn [read_all];
    rewrite (blobReader_Read_chunk _ tl _ _ Hf); go_step;
    rewrite (blobReader_Read_chunk _ tl _ _ Hf); go_step;
    rewrite (blobReader_Read_done tl _ _ Hf); go_step;
    rewrite ?blobReader_Read_exhausted; go_step; reflexivity.
Qed.

End Responses.

(* ================================================================== *)
(** * createReadableStream *)

Lemma enqueued_cons_chunk d t :
  enqueued (Enqueue (Uint8Array d) :: t) = d ++ enqueued t.
Proof. reflexivity. Qed.

Lemma f_strings_Reader s i :
  (i < length s)%nat ->
  f (Some (strings_Reader s i))
  = emit (Enqueue (Uint8Array (take (Nat.min 100 (length s - i)) (drop i s))))
      (ret (ReturnsF (Some (strings_Reader s (i + Nat.min 100 (length s - i)))))).
Proof.
  intros Hi. unfold f, Reader_Read.
  destruct (Nat.leb_spec (length s) i) as [Hle | _]; [lia |].
  unfold copy, Uint8Array_New, CopyBytesToJS, copy, make.
  rewrite !length_replicate, !length_drop.
  set (n := Nat.min 100 (length s - i)).
  rewrite !length_app, !length_take, !length_drop, !length_replicate.
  fold n.
  replace (Nat.min n (Nat.min n (length s - i) + (100 - n))) with n by lia.
  assert (Hn : length (take n (drop i s)) = n).
  { rewrite length_take, length_drop. lia. }
  rewrite take_app_le by lia. rewrite take_ge by lia.
  rewrite (drop_ge (replicate n Byte.x00) n) by (rewrite length_replicate; lia).
  rewrite app_nil_r. go_step. reflexivity.
Qed.

Lemma f_strings_Reader_end s i :
  (length s <= i)%nat ->
  f (Some (strings_Reader s i)) = emit Close (ret ReturnsUndefined).
Proof.
  intros Hi. unfold f, Reader_Read.
  destruct (Nat.leb_spec (length s) i) as [_ | Hlt]; [reflexivity | lia].
Qed.

(** Over a [strings.Reader] the adapter does reproduce the bytes: the
    chunks the host is handed, concatenated, are what was left to read, and
    the stream is then closed. *)
Lemma host_pull_strings_Reader k : forall s i,
  (i <= length s)%nat -> (length s - i < k)%nat ->
  outcome (host_pull k (Some (strings_Reader s i))) = Ret tt
  /\ enqueued (trace (host_pull k (Some (strings_Reader s i)))) = drop i s
  /\ closed (trace (host_pull k (Some (strings_Reader s i)))) = true.
Proof.
  induction k as [| k IH]; intros s i Hi Hk; [lia |].
  cbn [host_pull].
  destruct (Nat.eq_dec i (length s)) as [-> | Hne].
  - rewrite f_strings_Reader_end by lia. go_step.
    rewrite drop_all. repeat split.
  - rewrite f_strings_Reader by lia. go_step.
    set (n := Nat.min 100 (length s - i)).
    destruct (IH s (i + n)%nat) as (Ho & He & Hc); [lia | lia |].
    rewrite outcome_emit, trace_emit, enqueued_cons_chunk, He.
    repeat split.
    + exact Ho.
    + rewrite <- drop_drop. apply take_drop.
    + cbn [closed existsb orb]. exact Hc.
Qed.

(** C6, at the failing input. A reader that hands out "hi" and reports
    io.EOF in the same call: the first pull closes the stream without
    enqueueing anything, so the host is handed no byte at all and the
    stream it reads back is empty, not "hi". The same bytes behind a
    [strings.Reader] do arrive. *)
Theorem host_pull_dataErrReader :
  trace (host_pull 4 (Some (dataErrReader (bytes "hi")))) = [Close]
  /\ enqueued (trace (host_pull 4 (Some (dataErrReader (bytes "hi"))))) = []
  /\ enqueued (trace (host_pull 4 (Some (strings_NewReader "hi")))) = bytes "hi".
Proof. repeat split. Qed.

(* ================================================================== *)
(** * goHeaders *)

(** Case analysis on a byte. *)
Ltac each_byte c :=
  destruct c as [[|] [|] [|] [|] [|] [|] [|] [|]].

Lemma canon_byte_fold u c : canon_byte u (fold_byte c) = canon_byte u c.
Proof. each_byte c; destruct u; vm_compute; reflexivity. Qed.

Lemma fold_canon_byte u c : fold_byte (canon_byte u c) = fold_byte c.
Proof. each_byte c; destruct u; vm_compute; reflexivity. Qed.

Lemma valid_fold_byte c :
  validHeaderFieldByte (fold_byte c) = validHeaderFieldByte c.
Proof. each_byte c; vm_compute; reflexivity. Qed.

Lemma canon_byte_same u c1 c2 :
  fold_byte c1 = fold_byte c2 -> canon_byte u c1 = canon_byte u c2.
Proof.
  intros H. rewrite <- (canon_byte_fold u c1), <- (canon_byte_fold u c2).
  now rewrite H.
Qed.

(** Names that differ only in letter case have one canonical form. *)
Lemma canon_loop_same a : forall b u,
  same_name a b -> canon_loop u a = canon_loop u b.
Proof.
  unfold same_name.
  induction a as [| c a IH]; intros [| d b] u H; simpl in H; try discriminate.
  - reflexivity.
  - injection H as Hc Hab. cbn [canon_loop].
    rewrite (canon_byte_same u c d Hc). f_equal. now apply IH.
Qed.

(** Canonicalising changes nothing but letter case. *)
Lemma fold_canon_loop a : forall u, fold_case (canon_loop u a) = fold_case a.
Proof.
  induction a as [| c a IH]; intros u; cbn [canon_loop fold_case].
  - reflexivity.
  - now rewrite fold_canon_byte, IH.
Qed.

Lemma token_fold_case a : token (fold_case a) = token a.
Proof.
  unfold token. induction a as [| c a IH]; [reflexivity |].
  cbn [fold_case list_ascii_of_string forallb].
  now rewrite valid_fold_byte, IH.
Qed.

Lemma token_same a b : same_name a b -> token a = token b.
Proof.
  intros H. rewrite <- (token_fold_case a), <- (token_fold_case b).
  now rewrite H.
Qed.

(** When the quick check finds nothing to change, the canonicalising loop
    changes nothing. *)
Lemma quick_check_false s : forall u,
  token s = true -> quick_check u s = false -> canon_loop u s = s.
Proof.
  unfold token.
  induction s as [| c s IH]; intros u Ht Hq; [reflexivity |].
  cbn [list_ascii_of_string forallb] in Ht.
  apply andb_prop in Ht as [Hc Hs].
  cbn [quick_check canon_loop] in *. rewrite Hc in Hq. cbn [negb] in Hq.
  unfold canon_byte.
  destruct (u && isLower c); [discriminate |].
  destruct (negb u && isUpper c); [discriminate |].
  f_equal. now apply IH.
Qed.

Lemma CanonicalMIMEHeaderKey_token s :
  token s = true -> CanonicalMIMEHeaderKey s = canon_loop true s.
Proof.
  intros Ht. unfold CanonicalMIMEHeaderKey, canonicalMIMEHeaderKey.
  fold (token s). rewrite Ht.
  destruct (quick_check true s) eqn:Hq; [reflexivity |].
  symmetry. now apply quick_check_false.
Qed.

Lemma CanonicalMIMEHeaderKey_same a b :
  token a = true -> same_name a b ->
  CanonicalMIMEHeaderKey a = CanonicalMIMEHeaderKey b.
Proof.
  intros Ha Hab. rewrite !CanonicalMIMEHeaderKey_token.
  - now apply canon_loop_same.
  - now rewrite <- (token_same a b Hab).
  - exact Ha.
Qed.

Lemma CanonicalMIMEHeaderKey_inj a b :
  token a = true -> token b = true ->
  CanonicalMIMEHeaderKey a = CanonicalMIMEHeaderKey b -> same_name a b.
Proof.
  intros Ha Hb. rewrite !CanonicalMIMEHeaderKey_token by assumption.
  intros H. unfold same_name.
  rewrite <- (fold_canon_loop a true), <- (fold_canon_loop b true).
  now rewrite H.
Qed.

Lemma header_of_entries_snoc es name value :
  header_of_entries (es ++ [(name, value)])
  = Header_Set (header_of_entries es) name value.
Proof. unfold header_of_entries. now rewrite foldl_app. Qed.

Lemma goHeaders_Response host status statusText entries blob :
  goHeaders host (Response_ status statusText entries blob)
  = emit CallForEach (ret (header_of_entries entries)).
Proof.
  unfold goHeaders. cbn [Get String.eqb Ascii.eqb Bool.eqb]. go_step.
  now rewrite forEach_pure.
Qed.

(** Every key of the mapping is the canonical form of an enumerated name,
    and holds that entry's value alone. *)
Lemma header_of_entries_keys entries : forall k vs,
  header_of_entries entries !! k = Some vs ->
  exists name value,
    In (name, value) entries /\ k = CanonicalMIMEHeaderKey name /\ vs = [value].
Proof.
  induction entries as [| [name value] es IH] using rev_ind; intros k vs.
  - unfold header_of_entries. cbn [foldl]. now rewrite lookup_empty.
  - rewrite header_of_entries_snoc. unfold Header_Set.
    destruct (decide (CanonicalMIMEHeaderKey name = k)) as [<- | Hne].
    + rewrite lookup_insert_eq. intros [= <-]. exists name, value.
      split; [apply in_or_app; right; now left | now split].
    + rewrite lookup_insert_ne by exact Hne. intros H.
      destruct (IH k vs H) as (n & v & Hin & Hk & Hv). exists n, v.
      split; [apply in_or_app; now left | now split].
Qed.

(** The entry enumerated last under a name, in whatever letter case, is
    the one the mapping holds. *)
Lemma header_of_entries_last pre name value post :
  Forall (fun e => token (fst e) = true) (pre ++ (name, value) :: post) ->
  Forall (fun e => ~ same_name (fst e) name) post ->
  header_of_entries (pre ++ (name, value) :: post) !! CanonicalMIMEHeaderKey name
  = Some [value].
Proof.
  induction post as [| [n v] post IH] using rev_ind; intros Htok Hpost.
  - rewrite header_of_entries_snoc. unfold Header_Set. apply lookup_insert_eq.
  - replace (pre ++ (name, value) :: post ++ [(n, v)])
      with ((pre ++ (name, value) :: post) ++ [(n, v)]) in *
      by now rewrite <- app_assoc.
    apply Forall_app in Htok as [Htok Hn]. apply Forall_app in Hpost as [Hpost Hn'].
    rewrite header_of_entries_snoc. unfold Header_Set.
    rewrite lookup_insert_ne; [now apply IH |].
    intros Heq. apply Forall_inv in Hn, Hn'. cbn [fst] in *. apply Hn'.
    apply CanonicalMIMEHeaderKey_inj; [exact Hn | | exact Heq].
    apply Forall_app in Htok as [_ Htok]. now apply Forall_inv in Htok.
Qed.

(** C10. The mapping goHeaders returns for a host response whose header
    names are tokens: every key is the canonical MIME form of an enumerated
    name; the value enumerated last under a name is what the mapping holds
    for it and what a lookup under any letter-case variant of the name
    returns; lookups under names that differ only in letter case agree; and
    two entries whose names differ only in letter case leave one entry,
    with the value of the second. *)
Theorem goHeaders_canonical (host : Host) (status : Z) (statusText : string)
    (entries : list (string * string)) (blob : Value) :
  Forall (fun e => token (fst e) = true) entries ->
  exists h,
    outcome (goHeaders host (Response_ status statusText entries blob)) = Ret h
    /\ (forall k vs, h !! k = Some vs ->
          exists name value, In (name, value) entries
                             /\ k = CanonicalMIMEHeaderKey name /\ vs = [value])
    /\ (forall pre name value post name',
          entries = pre ++ (name, value) :: post ->
          Forall (fun e => ~ same_name (fst e) name) post ->
          same_name name name' ->
          h !! CanonicalMIMEHeaderKey name = Some [value]
          /\ Header_Get h name' = value)
    /\ (forall a b, token a = true -> same_name a b ->
          Header_Get h a = Header_Get h b)
    /\ (forall n1 v1 n2 v2,
          entries = [(n1, v1); (n2, v2)] -> same_name n1 n2 ->
          h = {[ CanonicalMIMEHeaderKey n2 := [v2] ]}).
Proof.
  intros Htok. exists (header_of_entries entries).
  rewrite goHeaders_Response. split; [reflexivity |].
  split; [apply header_of_entries_keys |]. split; [| split].
  - intros pre name value post name' -> Hpost Hsame.
    pose proof (header_of_entries_last pre name value post Htok Hpost) as Hl.
    split; [exact Hl |]. unfold Header_Get.
    assert (Hn : token name = true).
    { apply Forall_app in Htok as [_ Htok]. now apply Forall_inv in Htok. }
    rewrite <- (CanonicalMIMEHeaderKey_same name name' Hn Hsame).
    now rewrite Hl.
  - intros a b Ha Hab. unfold Header_Get.
    now rewrite (CanonicalMIMEHeaderKey_same a b Ha Hab).
  - intros n1 v1 n2 v2 -> Hsame. apply Forall_inv in Htok. cbn [fst] in Htok.
    unfold header_of_entries. cbn [foldl fst snd]. unfold Header_Set.
    rewrite (CanonicalMIMEHeaderKey_same n1 n2 Htok Hsame).
    rewrite insert_insert_eq. reflexivity.
Qed.

(* ================================================================== *)
(** * The statements at concrete inputs *)

Lemma promiseHack_settled_witness :
  fair [HostTurn; Wake] = true
  /\ outcome (promiseHack example_host (Promise (Resolved (Number 7)) [HostTurn; Wake]))
     = Ret (Number 7, None)
  /\ (exists r e,
        outcome (promiseHack example_host
                   (Promise (Rejected [fetch_failure]) [HostTurn; Wake]))
        = Ret (r, Some e)
        /\ Error_ e = "Failed to fetch")
  /\ (exists r e,
        outcome (promiseHack example_host
                   (Promise (Rejected [Object ∅]) [HostTurn; Wake]))
        = Ret (r, Some e)
        /\ Error_ e = "[object Object]")
  /\ (exists r e,
        outcome (promiseHack example_host (Promise (Rejected []) [HostTurn; Wake]))
        = Ret (r, Some e)
        /\ Error_ e = EmptyString).
Proof.
  destruct (promiseHack_settled example_host [HostTurn; Wake] eq_refl)
    as (H1 & H2 & H3 & H4).
  split; [reflexivity |]. split; [apply H1 |]. split; [| split].
  - exact (H2 fetch_failure [] (String_ "Failed to fetch") eq_refl eq_refl).
  - exact (H3 (Object ∅) [] eq_refl).
  - exact H4.
Defined.


Lemma Run_returns_stored_error_witness :
  Error failed_request = Some (errors_New "invalid URL")
  /\ outcome (Run example_host 30000000000%Z failed_request)
     = Ret (None, Some (errors_New "invalid URL"))
  /\ trace (Run example_host 30000000000%Z failed_request) = [].
Proof.
  split; [reflexivity |].
  exact (Run_returns_stored_error example_host 30000000000%Z failed_request
           (errors_New "invalid URL") eq_refl).
Defined.

Lemma Run_timeout_witness :
  CurrentTimeout (example_request "POST" None (Some 0%Z)) = Some 0%Z
  /\ Forall (fun c => is_timer c = false)
       (trace (Run example_host 30000000000%Z
                 (example_request "POST" None (Some 0%Z)))).
Proof.
  split; [reflexivity |].
  destruct (Run_timeout example_host 30000000000%Z
              (example_request "POST" None (Some 0%Z))) as (H & _ & _).
  exact (proj1 (H eq_refl)).
Defined.

Lemma Run_GET_HEAD_sends_no_body_witness :
  Method (example_request "GET" (Some (strings_NewReader "hi")) None) = "GET"
  /\ Forall (fun c => is_pull c = false)
       (trace (Run example_host 0%Z
                 (example_request "GET" (Some (strings_NewReader "hi")) None)))
  /\ In (NewReadableStream (Some (strings_NewReader "hi")))
       (trace (Run example_host 0%Z
                 (example_request "GET" (Some (strings_NewReader "hi")) None))).
Proof.
  split; [reflexivity |].
  destruct (Run_GET_HEAD_sends_no_body example_host 0%Z
              (example_request "GET" (Some (strings_NewReader "hi")) None)
              (or_introl eq_refl)) as (_ & H2 & H3).
  split; [exact H2 | exact (proj1 (H3 eq_refl))].
Defined.

(** C1, as stated, fails: for a GET Request that carries a reader, Run
    does construct the body stream. *)
Lemma Run_GET_constructs_body_stream :
  In (NewReadableStream (Some (strings_NewReader "hi")))
     (trace (Run example_host 0%Z
               (example_request "GET" (Some (strings_NewReader "hi")) None)))
  /\ ~ no_body_stream_constructed_or_sent.
Proof.
  assert (H : In (NewReadableStream (Some (strings_NewReader "hi")))
                (trace (Run example_host 0%Z
                   (example_request "GET" (Some (strings_NewReader "hi")) None)))).
  { exact (proj1 (Run_makes_calls example_host 0%Z
                    (example_request "GET" (Some (strings_NewReader "hi")) None)
                    eq_refl)). }
  split; [exact H |]. intros Hclaim.
  destruct (Hclaim example_host 0%Z
              (example_request "GET" (Some (strings_NewReader "hi")) None)
              (or_introl eq_refl)) as [Hnever _].
  exact (Hnever _ H).
Qed.

Lemma Run_nil_reader_witness :
  CurrentReader (example_request "POST" None None) = None
  /\ outcome (Run example_host 0%Z (example_request "POST" None None))
     = Panic "runtime error: invalid memory address or nil pointer dereference".
Proof.
  split; [reflexivity |].
  destruct (Run_nil_reader example_host 0%Z (example_request "POST" None None)
              eq_refl eq_refl) as (_ & _ & _ & H & _);
    [discriminate | discriminate |].
  apply H. discriminate.
Defined.

Lemma fetch2http_empty_body_witness :
  fair [HostTurn; Wake] = true
  /\ exists resp,
       outcome (fetch2http example_host
                  (Response_ 204 "No Content" []
                     (Promise (Resolved (Blob 0 [])) [HostTurn; Wake])))
       = Ret resp
       /\ ReadCloser_Read example_host (Body resp) (make 16)
          = ret ((0%nat, Some io_EOF), make 16, Body resp).
Proof.
  split; [reflexivity |].
  destruct (fetch2http_empty_body example_host 204%Z "No Content" [] []
              [HostTurn; Wake] eq_refl) as (resp & H1 & _ & _ & H4 & _).
  exists resp. split; [exact H1 | exact (H4 (make 16))].
Defined.

Lemma blobReader_Read_mock_stream_witness :
  fair [HostTurn; Wake] = true
  /\ outcome (read_all example_host (mock_stream [HostTurn; Wake]) [1; 1; 1])
     = Ret [(bytes "a", None); (bytes "c", None); ([], None)].
Proof.
  split; [reflexivity |].
  exact (proj1 (blobReader_Read_mock_stream example_host [HostTurn; Wake] eq_refl)).
Defined.

Lemma goHeaders_canonical_witness :
  Forall (fun e => token (fst e) = true) example_headers
  /\ exists h,
       outcome (goHeaders example_host (Response_ 200 "OK" example_headers Null))
       = Ret h
       /\ Header_Get h "CONTENT-TYPE" = "text/plain"
       /\ h = {[ "Content-Type" := ["text/plain"] ]}.
Proof.
  assert (Htok : Forall (fun e => token (fst e) = true) example_headers)
    by (repeat constructor).
  split; [exact Htok |].
  destruct (goHeaders_canonical example_host 200%Z "OK" example_headers Null Htok)
    as (h & Ho & _ & Hlast & _ & Hboth).
  exists h. split; [exact Ho |]. split.
  - exact (proj2 (Hlast [("content-type", "text/html")] "Content-Type"
                    "text/plain" [] "CONTENT-TYPE" eq_refl (Forall_nil_2 _) eq_refl)).
  - exact (Hboth "content-type" "text/html" "Content-Type" "text/plain"
             eq_refl eq_refl).
Defined.

(* ================================================================== *)
(** * Further properties of promiseHack *)

Section PromiseHackMore.
Context (host : Host).

Lemma poll_idle tl : forall c, done c = false -> poll host tl [] c = blocked.
Proof.
  induction tl as [| [|] tl IH]; intros c Hd; cbn [poll].
  - reflexivity.
  - rewrite Hd. now apply IH.
  - now apply IH.
Qed.

(** X1. A deferred value that never settles: whatever the order and number
    of wake-ups and host turns, promiseHack does not return and makes no
    call into the host; nothing in it bounds the wait. *)
Theorem promiseHack_pending_blocks (tl : list Turn) :
  promiseHack host (Promise Pending tl) = blocked.
Proof. cbn [promiseHack reactions]. now apply poll_idle. Qed.

Lemma poll_catch_panics tl payload rest : forall c,
  done c = false -> isObject payload = false -> fair tl = true ->
  outcome (poll host tl [OnCatch (payload :: rest)] c)
  = Panic "syscall/js: call of Value.Get on a value that is not an object".
Proof.
  induction tl as [| [|] tl IH]; intros c Hd Hp Hf; cbn [poll fair] in *.
  - discriminate.
  - rewrite Hd. now apply IH.
  - rewrite outcome_bind. unfold catch_func. rewrite outcome_bind.
    destruct payload; try discriminate; reflexivity.
Qed.

(** X2. A rejection whose payload is not an object (a string, a number,
    null, undefined): the catch callback panics when it reads the payload's
    [message], so promiseHack panics instead of returning an error. *)
Theorem promiseHack_primitive_payload_panics (payload : Value)
    (rest : list Value) (tl : list Turn) :
  isObject payload = false -> fair tl = true ->
  outcome (promiseHack host (Promise (Rejected (payload :: rest)) tl))
  = Panic "syscall/js: call of Value.Get on a value that is not an object".
Proof.
  intros Hp Hf. cbn [promiseHack reactions].
  now apply poll_catch_panics.
Qed.

(** C4, at the failing inputs. A rejection whose payload is the string
    "boom", which has no [message] field, and a rejection without a reason,
    for which the host hands the callback the one argument undefined: the
    catch callback reads [message] off its argument before any test, that
    read panics, and promiseHack neither describes the error by the
    payload's string coercion nor returns an error with an empty
    description: it returns nothing. *)
Theorem promiseHack_fallback_panics (tl : list Turn) :
  fair tl = true ->
  outcome (promiseHack host (Promise (Rejected [String_ "boom"]) tl))
  = Panic "syscall/js: call of Value.Get on a value that is not an object"
  /\ outcome (promiseHack host (Promise (Rejected [Undefined]) tl))
     = Panic "syscall/js: call of Value.Get on a value that is not an object".
Proof.
  intros Hf. cbn [promiseHack reactions].
  split; now apply poll_catch_panics.
Qed.

Lemma catch_func_coerces args c : emits is_coerce (catch_func host args c).
Proof.
  unfold catch_func. destruct args as [| a0 args]; [emits_tac |].
  apply emits_bind; [apply Get_emits | intros m].
  destruct (IsUndefined m); unfold Global_String; emits_tac.
Qed.

Lemma poll_coerces tl : forall q c, emits is_coerce (poll host tl q c).
Proof.
  induction tl as [| [|] tl IH]; intros q c; cbn [poll].
  - emits_tac.
  - destruct (done c); [emits_tac | apply IH].
  - destruct q as [| [args | args] q]; [apply IH | |];
      (apply emits_bind; [| intros c'; apply IH]).
    + apply catch_func_coerces.
    + unfold then_func. emits_tac.
Qed.

End PromiseHackMore.

(* ================================================================== *)
(** * Further properties of Run *)

Section RunMore.
Context (host : Host) (D : Duration).

Lemma emits_weaken {A} (P Q : HostCall -> bool) (m : M A) :
  (forall c, P c = true -> Q c = true) -> emits P m -> emits Q m.
Proof. intros HPQ Hm. unfold emits in *. eapply Forall_impl; [exact Hm | exact HPQ]. Qed.

(** What follows the call of [fetch] in [Run]: pulls of the body, the
    wait, the reading of the response. *)
Lemma Run_tail_emits r :
  emits (fun c => is_pull c || is_wait c)
    (bind (pull_body host (fetch_obj D r))
       (fun _ => bind (promiseHack host (host_fetch host (URL r) (fetch_obj D r)))
                      (respond host))).
Proof.
  apply emits_bind; [| intros _; apply emits_bind; [| intros x]].
  - apply (emits_weaken is_pull); [| apply pull_body_emits].
    intros c ->. reflexivity.
  - apply (emits_weaken is_wait); [| apply promiseHack_emits].
    intros c ->. apply orb_true_r.
  - apply (emits_weaken is_wait); [| apply respond_emits].
    intros c ->. apply orb_true_r.
Qed.

Lemma signal_calls_not_fetch r :
  Forall (fun c => is_fetch c = false) (signal_calls D r).
Proof.
  unfold signal_calls.
  destruct (CurrentTimeout r) as [t |];
    [destruct (t =? 0)%Z | destruct (D =? 0)%Z]; repeat constructor.
Qed.

Lemma fetch_obj_method r :
  fetch_arg (fetch_obj D r) "method" = Some (String_ (Method r)).
Proof.
  unfold fetch_arg, fetch_obj, FetchArgs_of. rewrite lookup_fmap.
  destruct (String.eqb (Method r) "GET" || String.eqb (Method r) "HEAD").
  - rewrite lookup_delete_ne by discriminate.
    rewrite !lookup_insert_ne by discriminate. now rewrite lookup_insert_eq.
  - rewrite !lookup_insert_ne by discriminate. now rewrite lookup_insert_eq.
Qed.

Lemma fetch_obj_headers r :
  fetch_arg (fetch_obj D r) "headers"
  = Some (Object (String_ <$> delete "__proto__" (Headers r))).
Proof.
  unfold fetch_arg, fetch_obj, FetchArgs_of. rewrite lookup_fmap.
  destruct (String.eqb (Method r) "GET" || String.eqb (Method r) "HEAD").
  - rewrite lookup_delete_ne by discriminate.
    rewrite !lookup_insert_ne by discriminate. now rewrite lookup_insert_eq.
  - rewrite !lookup_insert_ne by discriminate. now rewrite lookup_insert_eq.
Qed.

(** X3. A Request without an explicit timeout, under a process-wide
    default of zero: Run makes no call that creates or arms a cancellation
    signal and gives [fetch] an undefined signal. *)
Theorem Run_zero_default_timeout (r : Request) :
  CurrentTimeout r = None ->
  Forall (fun c => is_timer c = false) (trace (Run host 0%Z r))
  /\ (forall url obj, In (GlobalFetch url obj) (trace (Run host 0%Z r)) ->
                      fetch_arg obj "signal" = Some Undefined).
Proof.
  intros Ht. split.
  - apply Forall_forall. intros c Hc. apply list_elem_of_In in Hc.
    apply Run_calls in Hc as [_ Hc]. unfold signal_calls in Hc.
    rewrite Ht in Hc. cbn in Hc.
    destruct Hc as [[] | [[<- | [<- | [<- | []]]] | [[Hc _] | Hc]]];
      try reflexivity; destruct c; simpl in *; congruence.
  - intros url obj Hc. apply Run_calls in Hc as [_ Hc].
    unfold signal_calls in Hc. rewrite Ht in Hc. cbn in Hc.
    destruct Hc as [[] | [[Hc | [Hc | [Hc | []]]] | [[Hc _] | Hc]]];
      try discriminate.
    injection Hc as <- <-. rewrite fetch_obj_signal. unfold Signal_of.
    now rewrite Ht.
Qed.

(** X4. A Request with an explicit timeout that is not zero but shorter
    than a millisecond: the duration is cut to whole milliseconds, so Run
    arms the abort timer with a delay of 0 ms and gives [fetch] the signal
    of that timer. *)
Theorem Run_submillisecond_timeout (r : Request) (t : Duration) :
  Error r = None -> CurrentTimeout r = Some t ->
  t <> 0%Z -> (-1000000 < t < 1000000)%Z ->
  In (SetTimeout 0) (trace (Run host D r))
  /\ exists obj, In (GlobalFetch (URL r) obj) (trace (Run host D r))
                 /\ fetch_arg obj "signal" = Some (AbortSignal 0).
Proof.
  intros He Ht Hne Hlt.
  assert (Hms : Milliseconds t = 0%Z).
  { unfold Milliseconds. destruct (Z_le_gt_dec 0 t) as [Hpos | Hneg].
    - apply Z.quot_small. lia.
    - replace t with (- (- t))%Z by lia. rewrite Z.quot_opp_l by lia.
      rewrite Z.quot_small by lia. reflexivity. }
  destruct (Run_makes_calls host D r He) as (_ & Hf & Hs).
  split.
  - apply Hs. unfold signal_calls. rewrite Ht, Hms.
    destruct (Z.eqb_spec t 0) as [-> | _]; [congruence |]. simpl. tauto.
  - exists (fetch_obj D r). split; [exact Hf |].
    rewrite fetch_obj_signal. unfold Signal_of. rewrite Ht, Hms.
    destruct (Z.eqb_spec t 0) as [-> | _]; [congruence | reflexivity].
Qed.

(** X5. A Request without a stored error: Run calls [fetch] exactly once
    (no retry), with the Request's URL, and arms no cancellation timer
    after the call; the object it passes holds the method as given, and as
    [headers] an object whose own properties are the Request's headers
    other than one named [__proto__], each under its own name, letter case
    kept, with its own value. *)
Theorem Run_single_fetch (r : Request) :
  Error r = None ->
  exists pre post obj props,
    trace (Run host D r) = pre ++ GlobalFetch (URL r) obj :: post
    /\ Forall (fun c => is_fetch c = false) pre
    /\ Forall (fun c => is_fetch c = false) post
    /\ Forall (fun c => is_timer c = false) post
    /\ fetch_arg obj "method" = Some (String_ (Method r))
    /\ fetch_arg obj "headers" = Some (Object props)
    /\ (forall k v, Headers r !! k = Some v -> k <> "__proto__" ->
                    props !! k = Some (String_ v))
    /\ (forall k x, props !! k = Some x ->
                    exists v, Headers r !! k = Some v /\ x = String_ v).
Proof.
  intros He.
  exists (signal_calls D r
          ++ [NewObject; NewObject; NewReadableStream (CurrentReader r); NewObject]),
    (trace (bind (pull_body host (fetch_obj D r))
              (fun _ => bind (promiseHack host
                                (host_fetch host (URL r) (fetch_obj D r)))
                             (respond host)))),
    (fetch_obj D r), (String_ <$> delete "__proto__" (Headers r)).
  pose proof (Run_tail_emits r) as Htail. unfold emits in Htail.
  split; [| split; [| split; [| split; [| split; [| split; [| split]]]]]].
  - rewrite (Run_unfold host D r He), trace_emit_all, !trace_emit.
    now rewrite <- app_assoc.
  - apply Forall_app. split; [apply signal_calls_not_fetch | repeat constructor].
  - eapply Forall_impl; [exact Htail |]. intros c Hc.
    destruct c; simpl in *; congruence.
  - eapply Forall_impl; [exact Htail |]. intros c Hc.
    destruct c; simpl in *; congruence.
  - apply fetch_obj_method.
  - apply fetch_obj_headers.
  - intros k v Hk Hne. rewrite lookup_fmap, lookup_delete_ne by congruence.
    now rewrite Hk.
  - intros k x. rewrite lookup_fmap.
    destruct (decide ("__proto__" = k)) as [<- | Hne].
    + now rewrite lookup_delete_eq.
    + rewrite lookup_delete_ne by exact Hne.
      destruct (Headers r !! k) as [v |]; [| discriminate].
      intros [= <-]. now exists v.
Qed.

(** X6. A Request without a stored error whose method is not exactly
    "GET" or "HEAD" (lower-case "get" included): the object given to [fetch]
    holds as [body] the stream over the Request's reader. *)
Theorem Run_other_methods_send_body (r : Request) :
  Error r = None -> Method r <> "GET" -> Method r <> "HEAD" ->
  exists obj, In (GlobalFetch (URL r) obj) (trace (Run host D r))
              /\ fetch_arg obj "body" = Some (ReadableStream (CurrentReader r)).
Proof.
  intros He Hg Hh. exists (fetch_obj D r). split.
  - now destruct (Run_makes_calls host D r He) as (_ & Hf & _).
  - now apply fetch_obj_body_kept.
Qed.

End RunMore.

(* ================================================================== *)
(** * Further properties of createReadableStream *)

(** Both readers keep to the contract of [io.Reader]: [0 <= n <= len(b)],
    and the buffer keeps its length. *)
Lemma Reader_Read_bound r b :
  (fst (fst (fst (Reader_Read r b))) <= length b)%nat
  /\ length (snd (fst (Reader_Read r b))) = length b.
Proof.
  destruct r as [s i | unread]; unfold Reader_Read, copy.
  - destruct (length s <=? i)%nat; cbn [fst snd]; [split; [lia | reflexivity] |].
    rewrite length_app, length_take, !length_drop. lia.
  - cbn [fst snd]. rewrite length_app, length_take, !length_drop. lia.
Qed.

(** The chunk built from a buffer of 100 bytes after a read of [n] bytes
    holds the first [n] bytes of the buffer. *)
Lemma chunk_of_buffer n b :
  (n <= length b)%nat ->
  CopyBytesToJS (Uint8Array_New n) b = ret (n, Uint8Array (take n b)).
Proof.
  intros Hn. unfold CopyBytesToJS, Uint8Array_New, copy, make.
  rewrite length_replicate. replace (Nat.min n (length b)) with n by lia.
  rewrite (drop_ge (replicate n Byte.x00) n) by (rewrite length_replicate; lia).
  now rewrite app_nil_r.
Qed.

(** One pull over a reader that is not nil: the stream is closed, or one
    chunk of at most 100 bytes is enqueued and [f] stays ready. *)
Lemma f_Some rd :
  f (Some rd) = emit Close (ret ReturnsUndefined)
  \/ exists d rd',
       f (Some rd) = emit (Enqueue (Uint8Array d)) (ret (ReturnsF (Some rd')))
       /\ (length d <= 100)%nat.
Proof.
  unfold f. pose proof (Reader_Read_bound rd (make 100)) as [Hn Hb].
  destruct (Reader_Read rd (make 100)) as [[[n e] b] rd']. cbn [fst snd] in *.
  unfold make in Hn, Hb. rewrite length_replicate in Hn, Hb.
  destruct e as [e |]; [now left | right].
  rewrite chunk_of_buffer by lia. go_step.
  exists (take n b), rd'. split; [reflexivity |]. rewrite length_take. lia.
Qed.

(** X7. Pulling a stream over a reader that is not nil never panics,
    however often the host pulls: the host is handed chunks of at most 100
    bytes each, at most one per pull, followed by at most one close, and
    nothing is enqueued after the close. *)
Theorem host_pull_chunks (k : nat) (rd : Reader) :
  exists chunks,
    outcome (host_pull k (Some rd)) = Ret tt
    /\ (trace (host_pull k (Some rd)) = enqueue_calls chunks
        \/ trace (host_pull k (Some rd)) = enqueue_calls chunks ++ [Close])
    /\ Forall (fun d => (length d <= 100)%nat) chunks
    /\ (length chunks <= k)%nat.
Proof.
  revert rd. induction k as [| k IH]; intros rd.
  - exists []. cbn. repeat split; auto with arith.
  - cbn [host_pull]. destruct (f_Some rd) as [-> | (d & rd' & -> & Hd)].
    + go_step. exists []. cbn. repeat split; auto with arith.
    + go_step. destruct (IH rd') as (chunks & Ho & Ht & Hc & Hl).
      exists (d :: chunks). rewrite outcome_emit, trace_emit.
      split; [exact Ho |]. split; [| split].
      * destruct Ht as [-> | ->]; [now left | now right].
      * now constructor.
      * cbn [length]. lia.
Qed.

(* ================================================================== *)
(** * Further properties of fetch2http and blobReader *)

Section ResponsesMore.
Context (host : Host).

(** [fetch2http] on a response whose blob promise resolves. *)
Lemma fetch2http_resolved status statusText headers size reads tl :
  fair tl = true ->
  fetch2http host
    (Response_ status statusText headers (Promise (Resolved (Blob size reads)) tl))
  = emit CallBlob
      (if (size =? 0)%Z
       then emit CallForEach
              (ret (http_Response_of status statusText headers size reads))
       else emit CallStream (emit CallGetReader (emit CallForEach
              (ret (http_Response_of status statusText headers size reads))))).
Proof.
  intros Hf. unfold fetch2http, http_Response_of. cbn [Call_blob]. go_step.
  rewrite (promiseHack_resolved host tl _ Hf). go_step.
  cbn [Get String.eqb Ascii.eqb Bool.eqb Value_Int]. go_step.
  cbn [Value_Int]. go_step.
  destruct (size =? 0)%Z; cbv beta iota; cbn [Call_stream Call_getReader];
    go_step; cbn [Call_getReader]; go_step; unfold goHeaders;
    cbn [Get String.eqb Ascii.eqb Bool.eqb Value_Int Value_String]; go_step;
    rewrite forEach_pure; go_step; reflexivity.
Qed.

(** X10. A host response whose blob has a size other than zero (and whose
    blob promise resolves while it is waited for): fetch2http copies the
    status code, puts the status text (not a status line) into [Status],
    sets the content length to the blob size, and attaches as body a
    blobReader over the reader of the blob's stream, obtained by one
    [stream] and one [getReader] call; no chunk is read yet. *)
Theorem fetch2http_streamed_body (status : Z) (statusText : string)
    (headers : list (string * string)) (size : Z) (reads : list Value)
    (tl : list Turn) :
  fair tl = true -> size <> 0%Z ->
  let fetch :=
    Response_ status statusText headers (Promise (Resolved (Blob size reads)) tl) in
  exists resp,
    outcome (fetch2http host fetch) = Ret resp
    /\ StatusCode resp = status
    /\ Status resp = statusText
    /\ ContentLength resp = size
    /\ Body resp = NopCloser_blobReader {| streamReader := StreamReader reads |}
    /\ outcome (goHeaders host fetch) = Ret (Header resp)
    /\ trace (fetch2http host fetch)
       = [CallBlob; CallStream; CallGetReader; CallForEach].
Proof.
  intros Hf Hs fetch. unfold fetch.
  rewrite (fetch2http_resolved _ _ _ _ _ _ Hf), goHeaders_Response.
  apply Z.eqb_neq in Hs. rewrite Hs.
  eexists. split; [reflexivity |]. unfold http_Response_of. rewrite Hs.
  repeat split.
Qed.

(** X11. A host response whose [blob()] promise rejects (with an object as
    payload, or with none): fetch2http does not return an error, it panics
    with the description of the rejection. *)
Theorem fetch2http_blob_rejected (status : Z) (statusText : string)
    (headers : list (string * string)) (args : list Value) (tl : list Turn) :
  fair tl = true ->
  (forall a rest, args = a :: rest -> isObject a = true) ->
  exists e,
    outcome (catch_func host args Cell0)
    = Ret {| done := true; res := Undefined; err := Some e |}
    /\ outcome (fetch2http host
                  (Response_ status statusText headers (Promise (Rejected args) tl)))
       = Panic (Error_ e).
Proof.
  intros Hf Hobj. destruct (catch_func_returns host args Cell0 Hobj) as [e Hc].
  exists e. split; [exact Hc |].
  destruct (poll_rejected_fair host tl args Cell0 _ eq_refl Hc Hf) as [r Hr].
  unfold fetch2http. cbn [Call_blob]. go_step.
  rewrite outcome_emit, outcome_bind. cbn [promiseHack reactions].
  rewrite Hr. reflexivity.
Qed.

(** Inversion of a bind that returns. *)
Lemma outcome_bind_Ret {A B} (m : M A) (k : A -> M B) b :
  outcome (bind m k) = Ret b ->
  exists a, outcome m = Ret a /\ outcome (k a) = Ret b.
Proof.
  rewrite outcome_bind. destruct (outcome m) as [a | |]; try discriminate.
  intros H. now exists a.
Qed.

(** X12. Whatever the host stream does, a Read that returns keeps to the
    bounds of [io.Reader]: it reports at most [len(p)] bytes, leaves the
    length of the buffer as it was, and when it reports an error it
    reports no byte and leaves the buffer untouched. *)
Theorem blobReader_Read_bounds (b : blobReader) (p : list byte)
    (n : nat) (e : option error) (p' : list byte) (b' : blobReader) :
  outcome (blobReader_Read host b p) = Ret ((n, e), p', b') ->
  (n <= length p)%nat
  /\ length p' = length p
  /\ (e <> None -> n = 0%nat /\ p' = p).
Proof.
  unfold blobReader_Read. intros H.
  apply outcome_bind_Ret in H as ([promise rd'] & _ & H).
  apply outcome_bind_Ret in H as ([result er] & _ & H).
  destruct er as [er |].
  { injection H as <- <- <- <-. repeat split; auto with arith. }
  apply outcome_bind_Ret in H as (d & _ & H).
  apply outcome_bind_Ret in H as (dn & _ & H).
  destruct dn.
  { injection H as <- <- <- <-. repeat split; auto with arith; congruence. }
  apply outcome_bind_Ret in H as (v & _ & H).
  apply outcome_bind_Ret in H as ([k q] & Hcopy & H).
  injection H as <- <- <- <-.
  destruct v; try discriminate. cbn [CopyBytesToGo] in Hcopy.
  injection Hcopy as <- <-. split; [lia |]. split; [| congruence].
  rewrite length_app, length_take, length_drop. lia.
Qed.

(** X13. A [read()] of the host stream that rejects (with an object as
    payload, or with none): Read returns no byte, the buffer untouched, and
    the error the rejection is turned into. *)
Theorem blobReader_Read_rejected (args rest : list Value) (tl : list Turn)
    (p : list byte) :
  fair tl = true ->
  (forall a more, args = a :: more -> isObject a = true) ->
  exists e,
    outcome (catch_func host args Cell0)
    = Ret {| done := true; res := Undefined; err := Some e |}
    /\ outcome (blobReader_Read host
                  {| streamReader := StreamReader (Promise (Rejected args) tl :: rest) |}
                  p)
       = Ret ((0%nat, Some e), p, {| streamReader := StreamReader rest |}).
Proof.
  intros Hf Hobj. destruct (catch_func_returns host args Cell0 Hobj) as [e Hc].
  exists e. split; [exact Hc |].
  destruct (poll_rejected_fair host tl args Cell0 _ eq_refl Hc Hf) as [r Hr].
  unfold blobReader_Read. cbn [streamReader Call_read]. go_step.
  rewrite outcome_emit, outcome_bind. cbn [promiseHack reactions].
  rewrite Hr. reflexivity.
Qed.

(** X14. A host stream that delivers a sequence of chunks, read with
    buffers of [n] bytes, one Read per chunk: every Read returns the first
    [n] bytes of its chunk with a nil error, so a chunk no longer than the
    buffer arrives whole and the rest of a longer chunk is never
    delivered. *)
Theorem read_all_stream_of (n : nat) (tl : list Turn) (chunks : list string) :
  fair tl = true ->
  outcome (read_all host (stream_of chunks tl) (replicate (length chunks) n))
  = Ret (map (fun c => (take n (bytes c), None)) chunks).
Proof.
  intros Hf. unfold stream_of.
  induction chunks as [| c chunks IH]; [reflexivity |].
  cbn [length replicate map read_all].
  rewrite (blobReader_Read_chunk host c tl _ _ Hf). go_step.
  rewrite outcome_emit, outcome_bind, IH. cbn [fst snd outcome].
  unfold copy, make. cbn [fst snd]. rewrite length_replicate.
  assert (E : take (Nat.min n (length (bytes c)))
                (take (Nat.min n (length (bytes c))) (bytes c)
                 ++ drop (Nat.min n (length (bytes c))) (replicate n Byte.x00))
              = take n (bytes c)).
  { rewrite take_app_le by (rewrite length_take; lia).
    rewrite take_take, Nat.min_id.
    destruct (le_lt_dec n (length (bytes c))) as [Hle | Hgt].
    - now replace (Nat.min n (length (bytes c))) with n by lia.
    - now rewrite !take_ge by lia. }
  now rewrite E.
Qed.

End ResponsesMore.

(* ================================================================== *)
(** * Run from end to end *)

Section RunEndToEnd.
Context (host : Host) (D : Duration).

Lemma host_pull_returns k : forall rd, outcome (host_pull k (Some rd)) = Ret tt.
Proof.
  induction k as [| k IH]; intros rd; [reflexivity |].
  cbn [host_pull]. destruct (f_Some rd) as [-> | (d & rd' & -> & _)]; go_step.
  - reflexivity.
  - rewrite outcome_emit. apply IH.
Qed.

(** The host pulling the body does not fail when no body is sent or the
    reader is not nil. *)
Lemma pull_body_returns r :
  CurrentReader r <> None \/ Method r = "GET" \/ Method r = "HEAD" ->
  outcome (pull_body host (fetch_obj D r)) = Ret tt.
Proof.
  intros Hr.
  destruct (String.eqb_spec (Method r) "GET") as [Hg | Hg].
  { now rewrite pull_body_none by (apply fetch_obj_body_stripped; now left). }
  destruct (String.eqb_spec (Method r) "HEAD") as [Hh | Hh].
  { now rewrite pull_body_none by (apply fetch_obj_body_stripped; now right). }
  pose proof (fetch_obj_body_kept D r Hg Hh) as Hb.
  unfold pull_body. unfold fetch_arg in Hb.
  destruct (fetch_obj D r); try discriminate. rewrite Hb.
  destruct (CurrentReader r) as [rd |]; [apply host_pull_returns |].
  destruct Hr as [Hr | [Hr | Hr]]; congruence.
Qed.

Lemma Run_outcome r :
  Error r = None ->
  CurrentReader r <> None \/ Method r = "GET" \/ Method r = "HEAD" ->
  outcome (Run host D r)
  = outcome (bind (promiseHack host (host_fetch host (URL r) (fetch_obj D r)))
                  (respond host)).
Proof.
  intros He Hr.
  rewrite (Run_unfold host D r He), outcome_emit_all, !outcome_emit, outcome_bind.
  now rewrite (pull_body_returns r Hr).
Qed.

(** X15. A Request without a stored error (and with a reader, or GET or
    HEAD) whose [fetch] the host rejects (with an object as payload, or
    with none): Run returns a nil Response and the error the rejection is
    turned into, and never asks the host for a blob: no response is
    read. *)
Theorem Run_fetch_rejected (r : Request) (args : list Value) (tl : list Turn) :
  Error r = None ->
  CurrentReader r <> None \/ Method r = "GET" \/ Method r = "HEAD" ->
  (forall obj, host_fetch host (URL r) obj = Promise (Rejected args) tl) ->
  fair tl = true ->
  (forall a rest, args = a :: rest -> isObject a = true) ->
  exists e,
    outcome (catch_func host args Cell0)
    = Ret {| done := true; res := Undefined; err := Some e |}
    /\ outcome (Run host D r) = Ret (None, Some e)
    /\ ~ In CallBlob (trace (Run host D r)).
Proof.
  intros He Hr Hfetch Hf Hobj.
  destruct (catch_func_returns host args Cell0 Hobj) as [e Hc].
  destruct (poll_rejected_fair host tl args Cell0 _ eq_refl Hc Hf) as [v Hv].
  exists e. split; [exact Hc |]. split.
  - rewrite (Run_outcome r He Hr), Hfetch, outcome_bind.
    cbn [promiseHack reactions]. rewrite Hv. reflexivity.
  - rewrite (Run_unfold host D r He), trace_emit_all, !trace_emit, trace_bind.
    rewrite (pull_body_returns r Hr), Hfetch, trace_bind.
    cbn [promiseHack reactions]. rewrite Hv. cbn [respond trace ret snd].
    rewrite app_nil_r. intros Hin.
    apply in_app_or in Hin as [Hin | Hin].
    { unfold signal_calls in Hin.
      destruct (CurrentTimeout r) as [t |];
        [destruct (t =? 0)%Z | destruct (D =? 0)%Z]; simpl in Hin;
        intuition discriminate. }
    cbn [In] in Hin.
    destruct Hin as [Hin | [Hin | [Hin | [Hin | [Hin | Hin]]]]];
      try discriminate.
    apply in_app_or in Hin as [Hin | Hin].
    + pose proof (pull_body_emits host (fetch_obj D r)) as Hp.
      unfold emits in Hp. rewrite Forall_forall in Hp.
      apply list_elem_of_In in Hin. apply Hp in Hin. discriminate.
    + pose proof (poll_coerces host tl [OnCatch args] Cell0) as Hp.
      unfold emits in Hp. rewrite Forall_forall in Hp.
      apply list_elem_of_In in Hin. apply Hp in Hin. discriminate.
Qed.

(** The host pulling the body does not fail either when it never calls
    the function [f] of the stream. *)
Lemma pull_body_idle obj : host_pulls host = 0%nat -> pull_body host obj = ret tt.
Proof.
  intros Hp. unfold pull_body. rewrite Hp. destruct obj; try reflexivity.
  now destruct (props !! "body") as [[] |].
Qed.

(** X16. A Request without a stored error whose [fetch] resolves to a
    response whose blob resolves, on a host that never calls the function
    [f] of the body stream (as a host that follows the streams standard),
    or, on a host that does, for a Request with a reader or with method
    GET or HEAD: Run returns a nil error and a Response that carries the
    host's status code,
    its status text as [Status], the blob size as content length, the
    headers goHeaders builds, and as body the empty reader for size zero or
    a blobReader over the blob's stream otherwise. *)
Theorem Run_success (r : Request) (status : Z) (statusText : string)
    (headers : list (string * string)) (size : Z) (reads : list Value)
    (tl1 tl2 : list Turn) :
  Error r = None ->
  host_pulls host = 0%nat
  \/ CurrentReader r <> None \/ Method r = "GET" \/ Method r = "HEAD" ->
  (forall obj,
     host_fetch host (URL r) obj
     = Promise (Resolved (Response_ status statusText headers
                            (Promise (Resolved (Blob size reads)) tl2))) tl1) ->
  fair tl1 = true -> fair tl2 = true ->
  exists resp,
    outcome (Run host D r) = Ret (Some {| RawResponse := resp |}, None)
    /\ StatusCode resp = status
    /\ Status resp = statusText
    /\ ContentLength resp = size
    /\ Header resp = header_of_entries headers
    /\ Body resp
       = (if (size =? 0)%Z
          then NopCloser_Reader (strings_NewReader EmptyString)
          else NopCloser_blobReader {| streamReader := StreamReader reads |}).
Proof.
  intros He Hr Hfetch Hf1 Hf2.
  exists (http_Response_of status statusText headers size reads).
  split; [| repeat split].
  assert (Hout : outcome (Run host D r)
                 = outcome (bind (promiseHack host
                                    (host_fetch host (URL r) (fetch_obj D r)))
                                 (respond host))).
  { destruct Hr as [Hp | Hr]; [| exact (Run_outcome r He Hr)].
    rewrite (Run_unfold host D r He), outcome_emit_all, !outcome_emit.
    now rewrite (pull_body_idle _ Hp), bind_ret. }
  rewrite Hout, Hfetch.
  rewrite (promiseHack_resolved host tl1 _ Hf1), bind_ret.
  cbn [respond]. rewrite outcome_bind.
  rewrite (fetch2http_resolved host _ _ _ _ _ _ Hf2), outcome_emit.
  destruct (size =? 0)%Z; reflexivity.
Qed.

End RunEndToEnd.

(* ================================================================== *)
(** * Further properties of the header mapping *)

Lemma CanonicalMIMEHeaderKey_not_token s :
  token s = false -> CanonicalMIMEHeaderKey s = s.
Proof.
  intros Ht. unfold CanonicalMIMEHeaderKey, canonicalMIMEHeaderKey.
  fold (token s). rewrite Ht. now destruct (quick_check true s).
Qed.

(** Canonicalising a header key twice is canonicalising it once, for
    every key. *)
Lemma CanonicalMIMEHeaderKey_idempotent (s : string) :
  CanonicalMIMEHeaderKey (CanonicalMIMEHeaderKey s) = CanonicalMIMEHeaderKey s.
Proof.
  destruct (token s) eqn:Ht.
  - rewrite (CanonicalMIMEHeaderKey_token s Ht).
    assert (Hsame : same_name (canon_loop true s) s) by apply fold_canon_loop.
    rewrite CanonicalMIMEHeaderKey_token
      by (now rewrite (token_same _ _ Hsame)).
    now apply canon_loop_same.
  - now rewrite !(CanonicalMIMEHeaderKey_not_token s Ht).
Qed.

(** X17. A header name with a byte that is not a token character is stored
    as it is: two such entries with different names, also names that
    differ only in letter case, stay two entries, each with its own
    value. *)
Theorem goHeaders_not_token (host : Host) (status : Z) (statusText : string)
    (blob : Value) (n1 v1 n2 v2 : string) :
  token n1 = false -> token n2 = false -> n1 <> n2 ->
  exists h,
    outcome (goHeaders host (Response_ status statusText [(n1, v1); (n2, v2)] blob))
    = Ret h
    /\ h !! n1 = Some [v1] /\ h !! n2 = Some [v2].
Proof.
  intros H1 H2 Hne. rewrite goHeaders_Response. eexists.
  split; [reflexivity |].
  unfold header_of_entries. cbn [foldl fst snd]. unfold Header_Set.
  rewrite (CanonicalMIMEHeaderKey_not_token n1 H1),
    (CanonicalMIMEHeaderKey_not_token n2 H2).
  split.
  - rewrite lookup_insert_ne by congruence. apply lookup_insert_eq.
  - apply lookup_insert_eq.
Qed.

Lemma header_of_entries_last_key pre name value post :
  Forall (fun e => CanonicalMIMEHeaderKey (fst e) <> CanonicalMIMEHeaderKey name)
         post ->
  header_of_entries (pre ++ (name, value) :: post) !! CanonicalMIMEHeaderKey name
  = Some [value].
Proof.
  induction post as [| [n v] post IH] using rev_ind; intros Hpost.
  - rewrite header_of_entries_snoc. unfold Header_Set. apply lookup_insert_eq.
  - replace (pre ++ (name, value) :: post ++ [(n, v)])
      with ((pre ++ (name, value) :: post) ++ [(n, v)])
      by now rewrite <- app_assoc.
    apply Forall_app in Hpost as [Hpost Hn]. apply Forall_inv in Hn.
    rewrite header_of_entries_snoc. unfold Header_Set.
    rewrite lookup_insert_ne by exact Hn. now apply IH.
Qed.

(** X18. Lookups in the mapping goHeaders returns, for any header names: a
    name whose canonical form is the canonical form of no enumerated name
    reads as the empty string; a name that was enumerated reads as the
    value of the last entry with its canonical form. *)
Theorem goHeaders_lookup (host : Host) (status : Z) (statusText : string)
    (entries : list (string * string)) (blob : Value) :
  exists h,
    outcome (goHeaders host (Response_ status statusText entries blob)) = Ret h
    /\ (forall k,
          Forall (fun e => CanonicalMIMEHeaderKey (fst e)
                           <> CanonicalMIMEHeaderKey k) entries ->
          Header_Get h k = EmptyString)
    /\ (forall pre name value post,
          entries = pre ++ (name, value) :: post ->
          Forall (fun e => CanonicalMIMEHeaderKey (fst e)
                           <> CanonicalMIMEHeaderKey name) post ->
          Header_Get h name = value).
Proof.
  rewrite goHeaders_Response. eexists. split; [reflexivity |]. split.
  - intros k Hk. unfold Header_Get.
    destruct (header_of_entries entries !! CanonicalMIMEHeaderKey k)
      as [vs |] eqn:Hl; [| reflexivity].
    destruct (header_of_entries_keys _ _ _ Hl) as (n & v & Hin & Heq & _).
    rewrite Forall_forall in Hk. apply list_elem_of_In in Hin.
    apply Hk in Hin. cbn [fst] in Hin. congruence.
  - intros pre name value post -> Hpost. unfold Header_Get.
    now rewrite (header_of_entries_last_key pre name value post Hpost).
Qed.

(** X19. Every key of the mapping goHeaders returns holds exactly one
    value, and a lookup under that very key returns it: the keys are
    already in the form lookups canonicalise to. *)
Theorem goHeaders_keys_lookup (host : Host) (status : Z) (statusText : string)
    (entries : list (string * string)) (blob : Value) :
  exists h,
    outcome (goHeaders host (Response_ status statusText entries blob)) = Ret h
    /\ forall k vs, h !! k = Some vs ->
                    exists v, vs = [v] /\ Header_Get h k = v.
Proof.
  rewrite goHeaders_Response. eexists. split; [reflexivity |].
  intros k vs Hl.
  destruct (header_of_entries_keys _ _ _ Hl) as (n & v & _ & -> & ->).
  exists v. split; [reflexivity |]. unfold Header_Get.
  now rewrite CanonicalMIMEHeaderKey_idempotent, Hl.
Qed.

(* ================================================================== *)
(** * The further properties at concrete inputs *)

Lemma promiseHack_primitive_payload_panics_witness :
  isObject (String_ "boom") = false
  /\ fair [HostTurn; Wake] = true
  /\ outcome (promiseHack example_host
                (Promise (Rejected [String_ "boom"]) [HostTurn; Wake]))
     = Panic "syscall/js: call of Value.Get on a value that is not an object".
Proof.
  split; [reflexivity |]. split; [reflexivity |].
  exact (promiseHack_primitive_payload_panics example_host (String_ "boom") []
           [HostTurn; Wake] eq_refl eq_refl).
Defined.

Lemma Run_zero_default_timeout_witness :
  CurrentTimeout (example_request "POST" (Some (strings_NewReader "hi")) None)
  = None
  /\ Forall (fun c => is_timer c = false)
       (trace (Run example_host 0%Z
                 (example_request "POST" (Some (strings_NewReader "hi")) None))).
Proof.
  split; [reflexivity |].
  exact (proj1 (Run_zero_default_timeout example_host
                  (example_request "POST" (Some (strings_NewReader "hi")) None)
                  eq_refl)).
Defined.

Lemma Run_submillisecond_timeout_witness :
  CurrentTimeout json_request = Some 500000%Z
  /\ In (SetTimeout 0) (trace (Run example_host 0%Z json_request)).
Proof.
  split; [reflexivity |].
  refine (proj1 (Run_submillisecond_timeout example_host 0%Z json_request
                   500000%Z eq_refl eq_refl _ _)); [discriminate | split; reflexivity].
Defined.

Lemma Run_single_fetch_witness :
  Error json_request = None
  /\ exists pre post obj props,
       trace (Run example_host 0%Z json_request)
       = pre ++ GlobalFetch (URL json_request) obj :: post
       /\ Forall (fun c => is_fetch c = false) pre
       /\ Forall (fun c => is_fetch c = false) post
       /\ fetch_arg obj "method" = Some (String_ "get")
       /\ fetch_arg obj "headers" = Some (Object props)
       /\ props !! "X-Trace-Id" = Some (String_ "abc").
Proof.
  split; [reflexivity |].
  destruct (Run_single_fetch example_host 0%Z json_request eq_refl)
    as (pre & post & obj & props & Ht & Hpre & Hpost & _ & Hm & Hh & Hg & _).
  exists pre, post, obj, props.
  split; [exact Ht |]. split; [exact Hpre |]. split; [exact Hpost |].
  split; [exact Hm |]. split; [exact Hh |].
  apply (Hg "X-Trace-Id" "abc"); [reflexivity | discriminate].
Defined.

Lemma Run_other_methods_send_body_witness :
  Method json_request = "get"
  /\ exists obj,
       In (GlobalFetch (URL json_request) obj)
          (trace (Run example_host 0%Z json_request))
       /\ fetch_arg obj "body"
          = Some (ReadableStream (Some (strings_NewReader "{}"))).
Proof.
  split; [reflexivity |].
  refine (Run_other_methods_send_body example_host 0%Z json_request eq_refl _ _);
    discriminate.
Defined.

Lemma fetch2http_streamed_body_witness :
  fair [HostTurn; Wake] = true
  /\ exists resp,
       outcome (fetch2http example_host
                  (Response_ 200 "OK" []
                     (Promise (Resolved (Blob 5 [chunk_read "hello" [HostTurn; Wake]]))
                        [HostTurn; Wake])))
       = Ret resp
       /\ StatusCode resp = 200%Z /\ Status resp = "OK"
       /\ ContentLength resp = 5%Z.
Proof.
  split; [reflexivity |].
  destruct (fetch2http_streamed_body example_host 200%Z "OK" [] 5%Z
              [chunk_read "hello" [HostTurn; Wake]] [HostTurn; Wake] eq_refl)
    as (resp & Ho & Hc & Hs & Hl & _); [discriminate |].
  exists resp. repeat split; assumption.
Defined.

Lemma fetch2http_blob_rejected_witness :
  fair [HostTurn; Wake] = true
  /\ exists e,
       outcome (catch_func example_host [fetch_failure] Cell0)
       = Ret {| done := true; res := Undefined; err := Some e |}
       /\ outcome (fetch2http example_host
                     (Response_ 200 "OK" []
                        (Promise (Rejected [fetch_failure]) [HostTurn; Wake])))
          = Panic (Error_ e).
Proof.
  split; [reflexivity |].
  refine (fetch2http_blob_rejected example_host 200%Z "OK" [] [fetch_failure]
            [HostTurn; Wake] eq_refl _).
  intros a rest Heq. injection Heq as <- _. reflexivity.
Defined.

Lemma blobReader_Read_bounds_witness :
  outcome (blobReader_Read example_host (mock_stream [HostTurn; Wake]) (make 1))
  = Ret ((1%nat, None), bytes "a",
         {| streamReader :=
              StreamReader [chunk_read "cde" [HostTurn; Wake];
                            done_read [HostTurn; Wake]] |})
  /\ (1 <= length (make 1))%nat
  /\ length (bytes "a") = length (make 1).
Proof.
  assert (H : outcome (blobReader_Read example_host (mock_stream [HostTurn; Wake])
                         (make 1))
              = Ret ((1%nat, None), bytes "a",
                     {| streamReader :=
                          StreamReader [chunk_read "cde" [HostTurn; Wake];
                                        done_read [HostTurn; Wake]] |}))
    by reflexivity.
  split; [exact H |].
  destruct (blobReader_Read_bounds example_host _ _ _ _ _ _ H) as (Hn & Hl & _).
  split; [exact Hn | exact Hl].
Defined.

Lemma blobReader_Read_rejected_witness :
  fair [HostTurn; Wake] = true
  /\ exists e,
       outcome (catch_func example_host [fetch_failure] Cell0)
       = Ret {| done := true; res := Undefined; err := Some e |}
       /\ outcome (blobReader_Read example_host
                     {| streamReader :=
                          StreamReader [Promise (Rejected [fetch_failure])
                                          [HostTurn; Wake]] |}
                     (make 4))
          = Ret ((0%nat, Some e), make 4, {| streamReader := StreamReader [] |}).
Proof.
  split; [reflexivity |].
  refine (blobReader_Read_rejected example_host [fetch_failure] []
            [HostTurn; Wake] (make 4) eq_refl _).
  intros a rest Heq. injection Heq as <- _. reflexivity.
Defined.

Lemma read_all_stream_of_witness :
  fair [HostTurn; Wake] = true
  /\ outcome (read_all example_host (stream_of ["ab"; "cde"] [HostTurn; Wake])
                [2%nat; 2%nat])
     = Ret [(bytes "ab", None); (bytes "cd", None)].
Proof.
  split; [reflexivity |].
  exact (read_all_stream_of example_host 2 [HostTurn; Wake] ["ab"; "cde"] eq_refl).
Defined.

Lemma Run_fetch_rejected_witness :
  Error json_request = None
  /\ exists e,
       outcome (catch_func
                  (host_with (Promise (Rejected [fetch_failure]) [HostTurn; Wake]))
                  [fetch_failure] Cell0)
       = Ret {| done := true; res := Undefined; err := Some e |}
       /\ outcome (Run (host_with (Promise (Rejected [fetch_failure])
                                     [HostTurn; Wake]))
                     0%Z json_request)
          = Ret (None, Some e).
Proof.
  split; [reflexivity |].
  destruct (Run_fetch_rejected
              (host_with (Promise (Rejected [fetch_failure]) [HostTurn; Wake]))
              0%Z json_request [fetch_failure] [HostTurn; Wake] eq_refl)
    as (e & Hc & Ho & _).
  - left. discriminate.
  - intros obj. reflexivity.
  - reflexivity.
  - intros a rest Heq. injection Heq as <- _. reflexivity.
  - exists e. split; [exact Hc | exact Ho].
Defined.

Lemma Run_success_witness :
  Error (example_request "POST" None None) = None
  /\ (exists resp,
        outcome (Run example_host 0%Z json_request)
        = Ret (Some {| RawResponse := resp |}, None)
        /\ StatusCode resp = 200%Z
        /\ Status resp = "OK"
        /\ ContentLength resp = 0%Z)
  /\ (exists resp,
        outcome (Run {| host_fetch := host_fetch example_host;
                        host_String := host_String example_host;
                        host_pulls := 0 |}
                     0%Z (example_request "POST" None None))
        = Ret (Some {| RawResponse := resp |}, None)
        /\ StatusCode resp = 200%Z).
Proof.
  split; [reflexivity |]. split.
  - destruct (Run_success example_host 0%Z json_request 200%Z "OK"
                [("content-type", "text/plain")] 0%Z []
                [Wake; HostTurn; Wake] [HostTurn; Wake] eq_refl)
      as (resp & Ho & Hc & Hs & Hl & _).
    + right. left. discriminate.
    + intros obj. reflexivity.
    + reflexivity.
    + reflexivity.
    + exists resp. repeat split; assumption.
  - destruct (Run_success {| host_fetch := host_fetch example_host;
                             host_String := host_String example_host;
                             host_pulls := 0 |}
                0%Z (example_request "POST" None None) 200%Z "OK"
                [("content-type", "text/plain")] 0%Z []
                [Wake; HostTurn; Wake] [HostTurn; Wake] eq_refl)
      as (resp & Ho & Hc & _).
    + left. reflexivity.
    + intros obj. reflexivity.
    + reflexivity.
    + reflexivity.
    + exists resp. split; assumption.
Defined.

Lemma goHeaders_not_token_witness :
  token "a b" = false /\ token "A B" = false
  /\ exists h,
       outcome (goHeaders example_host
                  (Response_ 200 "OK" [("a b", "1"); ("A B", "2")] Null))
       = Ret h
       /\ h !! "a b" = Some ["1"] /\ h !! "A B" = Some ["2"].
Proof.
  split; [reflexivity |]. split; [reflexivity |].
  refine (goHeaders_not_token example_host 200%Z "OK" Null "a b" "1" "A B" "2"
            eq_refl eq_refl _).
  discriminate.
Defined.

Lemma goHeaders_lookup_witness :
  exists h,
    outcome (goHeaders example_host (Response_ 200 "OK" example_headers Null))
    = Ret h
    /\ Header_Get h "Accept" = EmptyString
    /\ Header_Get h "Content-Type" = "text/plain".
Proof.
  destruct (goHeaders_lookup example_host 200%Z "OK" example_headers Null)
    as (h & Ho & Hmiss & Hlast).
  exists h. split; [exact Ho |]. split.
  - apply Hmiss. repeat constructor; discriminate.
  - exact (Hlast [("content-type", "text/html")] "Content-Type" "text/plain" []
             eq_refl (Forall_nil_2 _)).
Defined.

Lemma goHeaders_keys_lookup_witness :
  exists h,
    outcome (goHeaders example_host (Response_ 200 "OK" example_headers Null))
    = Ret h
    /\ h !! "Content-Type" = Some ["text/plain"]
    /\ Header_Get h "Content-Type" = "text/plain".
Proof.
  destruct (goHeaders_keys_lookup example_host 200%Z "OK" example_headers Null)
    as (h & Ho & Hk).
  exists h. split; [exact Ho |].
  assert (Hl : h !! "Content-Type" = Some ["text/plain"]).
  { rewrite goHeaders_Response in Ho. injection Ho as <-. reflexivity. }
  split; [exact Hl |].
  destruct (Hk _ _ Hl) as (v & Hv & Hg). injection Hv as <-. exact Hg.
Defined.

Lemma promiseHack_fallback_panics_witness :
  fair [HostTurn; Wake] = true
  /\ outcome (promiseHack example_host
                (Promise (Rejected [String_ "boom"]) [HostTurn; Wake]))
     = Panic "syscall/js: call of Value.Get on a value that is not an object"
  /\ outcome (promiseHack example_host
                (Promise (Rejected [Undefined]) [HostTurn; Wake]))
     = Panic "syscall/js: call of Value.Get on a value that is not an object".
Proof.
  split; [reflexivity |].
  exact (promiseHack_fallback_panics example_host [HostTurn; Wake] eq_refl).
Defined.

